(** * Azure table handlers: the List/Get streaming protocol

    A shallow embedding of the List and Get hydrate functions of the
    plugin's table modules (app configuration, policy assignment, role
    definition, load balancer backend address pool, security center auto
    provisioning, network watcher, network watcher flow log, subscription,
    security center), followed by the properties of the streaming protocol
    they share.

    The functions are sequential Go code that talks to three outside
    parties: the plugin host (row sink, row budget, rate limiter, quals,
    and the context, which the caller may cancel), the session provider
    and the cloud API.  They are written here in a small state monad with
    abrupt termination (Go's [return] inside a loop, a run-time panic, or
    the page loop running out of fuel).  Calls to the logger are left out:
    they do not touch the protocol.

    The column hydrates and transforms of the app configuration and
    security center tables follow the handlers.  Not embedded:
    [securityCenterAkas], whose string helpers are defined elsewhere, and
    [listComputeDiskMetricReadOpsHourly], which only delegates to
    [listAzureMonitorMetricStatistics], a function defined elsewhere. *)

From stdpp Require Import gmap strings list.
From Stdlib Require Import Ascii Lia.

Open Scope string_scope.
Open Scope list_scope.
Open Scope nat_scope.

(* ================================================================== *)
(** ** Data *)

(** A provider error; only its code matters to the handlers. *)
Record error := Err { code : string }.

(** A provider resource as the SDK models expose it: [ID] and [Name] are
    [*string] fields and may be nil. *)
Record Resource := { ID : option string; Name : option string }.

(** Values that travel through [interface{}]: a resource, the
    [flowLogInfo] struct, a string, or an [error] value. *)
Inductive value :=
| VResource (r : Resource)
| VFlowLogInfo (FlowLog : Resource) (NetworkWatcherName : string)
| VString (s : string)
| VError (e : error).

(** The [(interface{}, error)] pair a hydrate function returns. *)
Record goReturn := GoReturn { item : option value; err : option error }.

(** Run-time panics the handlers can raise. *)
Inductive panic :=
| NilDereference
| IndexOutOfRange (index len : nat).

(** How a call ends: a [return], a panic, or (in the model only) the page
    loop exhausting its fuel. *)
Inductive outcome :=
| Returned (r : goReturn)
| Panicked (p : panic)
| OutOfFuel.

Record Session := { SubscriptionID : string }.

(** An SDK client; [retryRules] records whether [ApplyRetryRules] was
    applied to it. *)
Record Client := { retryRules : bool }.

(** One page of a paged listing: its items, and whether the pager reports
    further pages after it. *)
Record Page := { Value : list Resource; more : bool }.

(** The pager ([...ListResultPage]): the client it fetches with, the index
    of the current page and the page itself. *)
Record Pager := { client : Client; pos : nat; page : Page }.

(** The outside world of one call: what the session provider and the cloud
    API answer, and when the caller cancels the context. [pages k] is the
    answer to the fetch of page [k] (page 0 by [List], page [k+1] by
    [NextWithContext] from page [k]). [cancelAt] is the number of actions
    of the handler after which [ctx] is cancelled, if it ever is; once
    cancelled it stays so. *)
Record Env := {
  session : error + Session;
  pages : nat → error + Page;
  listAll : error + option (list Resource);
  getResp : error + Resource;
  cancelAt : option nat
}.

Inductive ApiOp := OpList | OpListAll | OpNext | OpGet.

(** Observable actions, in the order the handler performs them. *)
Inductive Event :=
| EvGetNewSession
| EvApplyRetryRules
| EvCall (op : ApiOp) (retry : bool) (args : list string)
| EvStreamListItem (v : value)
| EvRowsRemaining
| EvWaitForListRateLimit.

(** The host side of a query ([*plugin.QueryData]) together with the
    bookkeeping the statements need: the rows streamed so far (in emission
    order), the row budget still open, the number of pages fetched
    successfully, and the log of actions (most recent first). No handler
    reads [pagesFetched] or [log]. *)
Record World := {
  EqualsQuals : gmap string string;
  rows : list value;
  rowsRemaining : nat;
  pagesFetched : nat;
  log : list Event
}.

Definition initWorld (quals : gmap string string) (budget : nat) : World :=
  {| EqualsQuals := quals; rows := []; rowsRemaining := budget;
     pagesFetched := 0; log := [] |}.

(** The actions of a run, oldest first. *)
Definition history (w : World) : list Event := reverse (log w).

(* ================================================================== *)
(** ** The monad *)

Inductive res (A : Type) :=
| Continue (a : A)
| Stop (o : outcome).
Arguments Continue {A} a.
Arguments Stop {A} o.

Definition M (A : Type) : Type := World → res A * World.

Definition ret {A} (a : A) : M A := fun w => (Continue a, w).

Definition bind {A B} (m : M A) (k : A → M B) : M B :=
  fun w => match m w with
           | (Continue a, w') => k a w'
           | (Stop o, w') => (Stop o, w')
           end.

Notation "'let*' x := m 'in' k" := (bind m (fun x => k))
  (at level 10, x name, m at level 100, k at level 200, only parsing).
Notation "m >> k" := (bind m (fun _ => k))
  (at level 100, k at level 200, right associativity, only parsing).

(** [return item, err] *)
Definition returnGo {A} (i : option value) (e : option error) : M A :=
  fun w => (Stop (Returned (GoReturn i e)), w).

Definition raise {A} (p : panic) : M A := fun w => (Stop (Panicked p), w).

Definition outOfFuel {A} : M A := fun w => (Stop OutOfFuel, w).

(** A Go function body always ends in a [return] (or a panic). *)
Definition call (body : M Empty_set) (w : World) : outcome * World :=
  match body w with
  | (Continue a, _) => match a with end
  | (Stop o, w') => (o, w')
  end.

(** [for _, v := range vs { body }] *)
Fixpoint forRange {A} (vs : list A) (body : A → M unit) : M unit :=
  match vs with
  | [] => ret tt
  | v :: vs' => body v >> forRange vs' body
  end.

(** [*p] on a pointer field. *)
Definition deref {A} (p : option A) : M A :=
  match p with
  | Some a => ret a
  | None => raise NilDereference
  end.

(** [xs[i]] *)
Definition index {A} (xs : list A) (i : nat) : M A :=
  match xs !! i with
  | Some a => ret a
  | None => raise (IndexOutOfRange i (length xs))
  end.

(* ================================================================== *)
(** ** The host, the session provider and the SDK *)

Definition logged (e : Event) (w : World) : World :=
  {| EqualsQuals := EqualsQuals w; rows := rows w;
     rowsRemaining := rowsRemaining w; pagesFetched := pagesFetched w;
     log := e :: log w |}.

Definition emit (e : Event) : M unit := fun w => (Continue tt, logged e w).

(** [d.EqualsQuals[k].GetStringValue()]: a missing qual reads as the empty
    string (the getter is nil-safe). *)
Definition qual (quals : gmap string string) (k : string) : string :=
  default "" (quals !! k).

Definition GetStringValue (k : string) : M string :=
  fun w => (Continue (qual (EqualsQuals w) k), w).

(** [d.StreamListItem(ctx, v)]: the row goes to the sink and uses up one
    row of the budget (the budget does not go below zero). *)
Definition StreamListItem (v : value) : M unit :=
  fun w => (Continue tt,
            {| EqualsQuals := EqualsQuals w; rows := rows w ++ [v];
               rowsRemaining := pred (rowsRemaining w);
               pagesFetched := pagesFetched w;
               log := EvStreamListItem v :: log w |}).

(** [ctx] has been cancelled by now. *)
Definition ctxCancelled (env : Env) (w : World) : bool :=
  match cancelAt env with
  | Some t => bool_decide (t ≤ length (log w))
  | None => false
  end.

(** [d.RowsRemaining(ctx)]: as the comment at each call site says, the
    check for "context has been cancelled or the limit has been hit". It
    reports zero on a cancelled context, and the rows still open
    otherwise. *)
Definition RowsRemaining (env : Env) : M nat :=
  fun w => (Continue (if ctxCancelled env w then 0 else rowsRemaining w),
            logged EvRowsRemaining w).

(** [d.WaitForListRateLimit(ctx)] *)
Definition WaitForListRateLimit : M unit := emit EvWaitForListRateLimit.

(** [GetNewSession(ctx, d, "MANAGEMENT")]. Modelled from the spec: the
    session provider is defined outside the files embedded here; it obtains
    the authenticated client context of the connection or fails. Which of
    the two happens is given by the environment. *)
Definition GetNewSession (env : Env) : M (error + Session) :=
  emit EvGetNewSession >> ret (session env).

(** [New...ClientWithBaseURI(...)] followed by the [Authorizer] assignment. *)
Definition NewClient : Client := {| retryRules := false |}.

(** [ApplyRetryRules(ctx, &client, d.Connection)]. Modelled from the spec:
    the function is defined outside the files embedded here; it puts the
    bounded-retry policy of the connection on the client. Here it marks the
    client, so that every call shows whether it is covered. *)
Definition ApplyRetryRules (c : Client) : M Client :=
  emit EvApplyRetryRules >> ret {| retryRules := true |}.

Definition fetched (w : World) : World :=
  {| EqualsQuals := EqualsQuals w; rows := rows w;
     rowsRemaining := rowsRemaining w; pagesFetched := S (pagesFetched w);
     log := log w |}.

(** [client.List(ctx, args...)]: fetches page 0. *)
Definition client_List (env : Env) (c : Client) (args : list string)
  : M (error + Pager) :=
  emit (EvCall OpList (retryRules c) args) >>
  match pages env 0 with
  | inl e => ret (inl e)
  | inr p => fun w => (Continue (inr {| client := c; pos := 0; page := p |}),
                       fetched w)
  end.

(** [result.Values()] *)
Definition Values (result : Pager) : list Resource := Value (page result).

(** [result.NotDone()] *)
Definition NotDone (result : Pager) : bool := more (page result).

(** [result.NextWithContext(ctx)]: on an error the page does not advance. *)
Definition NextWithContext (env : Env) (result : Pager)
  : M (error + Pager) :=
  emit (EvCall OpNext (retryRules (client result)) []) >>
  match pages env (S (pos result)) with
  | inl e => ret (inl e)
  | inr p => fun w => (Continue (inr {| client := client result;
                                        pos := S (pos result); page := p |}),
                       fetched w)
  end.

(** [client.ListAll(ctx)]: an unpaged result whose [Value] is a
    [*[]Watcher]. *)
Definition client_ListAll (env : Env) (c : Client)
  : M (error + option (list Resource)) :=
  emit (EvCall OpListAll (retryRules c) []) >>
  match listAll env with
  | inl e => ret (inl e)
  | inr result => fun w => (Continue (inr result), fetched w)
  end.

(** [client.Get(ctx, args...)] / [client.GetByID(ctx, id)] *)
Definition client_Get (env : Env) (c : Client) (args : list string)
  : M (error + Resource) :=
  emit (EvCall OpGet (retryRules c) args) >> ret (getResp env).

(** [for result.NotDone() { body }]; the body advances the pager. *)
Fixpoint forNotDone (fuel : nat) (result : Pager) (body : Pager → M Pager)
  : M Pager :=
  if NotDone result then
    match fuel with
    | 0 => outOfFuel
    | S fuel' => let* result' := body result in forNotDone fuel' result' body
    end
  else ret result.

(** [strings.Split(s, sep)] for a one-character separator: the substrings
    between the separators, one more than there are separators. *)
Fixpoint strings_Split (s : string) (sep : ascii) : list string :=
  match s with
  | EmptyString => [EmptyString]
  | String c s' =>
      if Ascii.eqb c sep then EmptyString :: strings_Split s' sep
      else match strings_Split s' sep with
           | seg :: segs => String c seg :: segs
           | [] => [String c EmptyString]
           end
  end.

Definition slash : ascii := "/"%char.

(* ================================================================== *)
(** ** table_azure_app_configuration.go *)

(** [listAppConfigurations]. The final [return nil, err] is reached with
    [err == nil] only: every non-nil [err] has returned before. *)
Definition listAppConfigurations (fuel : nat) (env : Env) : M Empty_set :=
  let* s := GetNewSession env in
  match s with
  | inl err => returnGo None (Some err)
  | inr session =>
    let client := NewClient in
    let* client := ApplyRetryRules client in
    let* r := client_List env client [""] in
    match r with
    | inl err => returnGo None (Some err)
    | inr result =>
      forRange (Values result) (fun config =>
        StreamListItem (VResource config)) >>
      let* result := forNotDone fuel result (fun result =>
        WaitForListRateLimit >>
        let* r := NextWithContext env result in
        match r with
        | inl err => returnGo None (Some err)
        | inr result =>
          forRange (Values result) (fun config =>
            StreamListItem (VResource config)) >>
          ret result
        end) in
      returnGo None None
    end
  end.

(** [getAppConfiguration] *)
Definition getAppConfiguration (env : Env) : M Empty_set :=
  let* name := GetStringValue "name" in
  let* resourceGroup := GetStringValue "resource_group" in
  if bool_decide (name = "") || bool_decide (resourceGroup = "") then
    returnGo None None
  else
    let* s := GetNewSession env in
    match s with
    | inl err => returnGo None (Some err)
    | inr session =>
      let client := NewClient in
      let* client := ApplyRetryRules client in
      let* r := client_Get env client [resourceGroup; name] in
      match r with
      | inl err => returnGo None (Some err)
      | inr config =>
        match ID config with
        | Some _ => returnGo (Some (VResource config)) None
        | None => returnGo None None
        end
      end
    end.

(** [listPolicyAssignments] *)
Definition listPolicyAssignments (fuel : nat) (env : Env) : M Empty_set :=
  let* s := GetNewSession env in
  match s with
  | inl err => returnGo None (Some err)
  | inr session =>
    let policyClient := NewClient in
    let* policyClient := ApplyRetryRules policyClient in
    let* r := client_List env policyClient [""] in
    match r with
    | inl err => returnGo (Some (VError err)) None
    | inr result =>
      forRange (Values result) (fun policy =>
        StreamListItem (VResource policy) >>
        let* n := RowsRemaining env in
        if Nat.eqb n 0 then returnGo None None else ret tt) >>
      let* result := forNotDone fuel result (fun result =>
        WaitForListRateLimit >>
        let* r := NextWithContext env result in
        match r with
        | inl err => returnGo None (Some err)
        | inr result =>
          forRange (Values result) (fun policy =>
            StreamListItem (VResource policy) >>
            let* n := RowsRemaining env in
            if Nat.eqb n 0 then returnGo None None else ret tt) >>
          ret result
        end) in
      returnGo None None
    end
  end.

(** [getPolicyAssignment] *)
Definition getPolicyAssignment (env : Env) : M Empty_set :=
  let* s := GetNewSession env in
  match s with
  | inl err => returnGo None (Some err)
  | inr session =>
    let* id := GetStringValue "id" in
    let policyClient := NewClient in
    let* policyClient := ApplyRetryRules policyClient in
    let* r := client_Get env policyClient [id] in
    match r with
    | inl err => returnGo (Some (VError err)) None
    | inr policy => returnGo (Some (VResource policy)) None
    end
  end.

(* ================================================================== *)
(** ** table_azure_role_definition.go *)

(** [listIamRoleDefinitions]. The final [return nil, err] is reached with
    [err == nil] only. *)
Definition listIamRoleDefinitions (fuel : nat) (env : Env) : M Empty_set :=
  let* s := GetNewSession env in
  match s with
  | inl err => returnGo None (Some err)
  | inr session =>
    let subscriptionID := SubscriptionID session in
    let authorizationClient := NewClient in
    let* authorizationClient := ApplyRetryRules authorizationClient in
    let* r := client_List env authorizationClient
                ["/subscriptions/" +:+ subscriptionID; ""] in
    match r with
    | inl err => returnGo None (Some err)
    | inr result =>
      forRange (Values result) (fun roleDefinition =>
        StreamListItem (VResource roleDefinition) >>
        let* n := RowsRemaining env in
        if Nat.eqb n 0 then returnGo None None else ret tt) >>
      let* result := forNotDone fuel result (fun result =>
        WaitForListRateLimit >>
        let* r := NextWithContext env result in
        match r with
        | inl err => returnGo None (Some err)
        | inr result =>
          forRange (Values result) (fun roleDefinition =>
            StreamListItem (VResource roleDefinition) >>
            let* n := RowsRemaining env in
            if Nat.eqb n 0 then returnGo None None else ret tt) >>
          ret result
        end) in
      returnGo None None
    end
  end.

(** [getIamRoleDefinition] *)
Definition getIamRoleDefinition (env : Env) : M Empty_set :=
  let* s := GetNewSession env in
  match s with
  | inl err => returnGo None (Some err)
  | inr session =>
    let subscriptionID := SubscriptionID session in
    let* name := GetStringValue "name" in
    let authorizationClient := NewClient in
    let* authorizationClient := ApplyRetryRules authorizationClient in
    let* r := client_Get env authorizationClient
                ["/subscriptions/" +:+ subscriptionID; name] in
    match r with
    | inl err => returnGo None (Some err)
    | inr op => returnGo (Some (VResource op)) None
    end
  end.

(* ================================================================== *)
(** ** table_azure_lb_backend_address_pool.go *)

(** [listBackendAddressPools]; [loadBalancer] is [h.Item]. *)
Definition listBackendAddressPools (fuel : nat) (env : Env)
    (loadBalancer : Resource) : M Empty_set :=
  let* s := GetNewSession env in
  match s with
  | inl err => returnGo None (Some err)
  | inr session =>
    let* id := deref (ID loadBalancer) in
    let* resourceGroup := index (strings_Split id slash) 4 in
    let listBackendAddressPoolsClient := NewClient in
    let* listBackendAddressPoolsClient :=
      ApplyRetryRules listBackendAddressPoolsClient in
    let* name := deref (Name loadBalancer) in
    let* r := client_List env listBackendAddressPoolsClient
                [resourceGroup; name] in
    match r with
    | inl err => returnGo None (Some err)
    | inr result =>
      forRange (Values result) (fun backendAddressPool =>
        StreamListItem (VResource backendAddressPool) >>
        let* n := RowsRemaining env in
        if Nat.eqb n 0 then returnGo None None else ret tt) >>
      let* result := forNotDone fuel result (fun result =>
        WaitForListRateLimit >>
        let* r := NextWithContext env result in
        match r with
        | inl err => returnGo None (Some err)
        | inr result =>
          forRange (Values result) (fun backendAddressPool =>
            StreamListItem (VResource backendAddressPool) >>
            let* n := RowsRemaining env in
            if Nat.eqb n 0 then returnGo None None else ret tt) >>
          ret result
        end) in
      returnGo None None
    end
  end.

(** [getBackendAddressPool] *)
Definition getBackendAddressPool (env : Env) : M Empty_set :=
  let* loadBalancerName := GetStringValue "load_balancer_name" in
  let* backendAddressPoolName := GetStringValue "name" in
  let* resourceGroup := GetStringValue "resource_group" in
  if bool_decide (loadBalancerName = "")
     || bool_decide (backendAddressPoolName = "")
     || bool_decide (resourceGroup = "") then
    returnGo None None
  else
    let* s := GetNewSession env in
    match s with
    | inl err => returnGo None (Some err)
    | inr session =>
      let backendAddressPoolClient := NewClient in
      let* backendAddressPoolClient :=
        ApplyRetryRules backendAddressPoolClient in
      let* r := client_Get env backendAddressPoolClient
                  [resourceGroup; loadBalancerName; backendAddressPoolName] in
      match r with
      | inl err => returnGo None (Some err)
      | inr op =>
        match ID op with
        | Some _ => returnGo (Some (VResource op)) None
        | None => returnGo None None
        end
      end
    end.

(** [extractLoadBalancerNameFromBackendAddressPoolID]; [data] is
    [d.HydrateItem]. *)
Definition extractLoadBalancerNameFromBackendAddressPoolID
    (data : Resource) : M Empty_set :=
  let* id := deref (ID data) in
  let* loadBalancerName := index (strings_Split id slash) 8 in
  returnGo (Some (VString loadBalancerName)) None.

(* ================================================================== *)
(** ** table_azure_security_center_auto_provisioning.go *)

(** [listSecurityCenterAutoProvisioning] *)
Definition listSecurityCenterAutoProvisioning (fuel : nat) (env : Env)
  : M Empty_set :=
  let* s := GetNewSession env in
  match s with
  | inl err => returnGo None (Some err)
  | inr session =>
    let autoProvisioningClient := NewClient in
    let* autoProvisioningClient := ApplyRetryRules autoProvisioningClient in
    let* r := client_List env autoProvisioningClient [] in
    match r with
    | inl err => returnGo (Some (VError err)) None
    | inr result =>
      forRange (Values result) (fun autoProvisioning =>
        StreamListItem (VResource autoProvisioning) >>
        let* n := RowsRemaining env in
        if Nat.eqb n 0 then returnGo None None else ret tt) >>
      let* result := forNotDone fuel result (fun result =>
        WaitForListRateLimit >>
        let* r := NextWithContext env result in
        match r with
        | inl err => returnGo (Some (VError err)) None
        | inr result =>
          forRange (Values result) (fun contact =>
            StreamListItem (VResource contact) >>
            let* n := RowsRemaining env in
            if Nat.eqb n 0 then returnGo None None else ret tt) >>
          ret result
        end) in
      returnGo None None
    end
  end.

(** [getSecurityCenterAutoProvisioning] *)
Definition getSecurityCenterAutoProvisioning (env : Env) : M Empty_set :=
  let* s := GetNewSession env in
  match s with
  | inl err => returnGo None (Some err)
  | inr session =>
    let* name := GetStringValue "name" in
    let autoProvisioningClient := NewClient in
    let* r := client_Get env autoProvisioningClient [name] in
    match r with
    | inl err => returnGo (Some (VError err)) None
    | inr autoProvisioning => returnGo (Some (VResource autoProvisioning)) None
    end
  end.

(* ================================================================== *)
(** ** table_azure_network_watcher.go *)

(** [listNetworkWatchers]. The final [return nil, err] is reached with
    [err == nil] only. *)
Definition listNetworkWatchers (env : Env) : M Empty_set :=
  let* s := GetNewSession env in
  match s with
  | inl err => returnGo None (Some err)
  | inr session =>
    let networkWatcherClient := NewClient in
    let* networkWatcherClient := ApplyRetryRules networkWatcherClient in
    let* r := client_ListAll env networkWatcherClient in
    match r with
    | inl err => returnGo None (Some err)
    | inr result =>
      let* watchers := deref result in
      forRange watchers (fun networkWatcher =>
        StreamListItem (VResource networkWatcher) >>
        let* n := RowsRemaining env in
        if Nat.eqb n 0 then returnGo None None else ret tt) >>
      returnGo None None
    end
  end.

(** [getNetworkWatcher] *)
Definition getNetworkWatcher (env : Env) : M Empty_set :=
  let* name := GetStringValue "name" in
  let* resourceGroup := GetStringValue "resource_group" in
  let* s := GetNewSession env in
  match s with
  | inl err => returnGo None (Some err)
  | inr session =>
    let networkWatcherClient := NewClient in
    let* networkWatcherClient := ApplyRetryRules networkWatcherClient in
    let* r := client_Get env networkWatcherClient [resourceGroup; name] in
    match r with
    | inl err => returnGo None (Some err)
    | inr op =>
      match ID op with
      | Some _ => returnGo (Some (VResource op)) None
      | None => returnGo None None
      end
    end
  end.

(* ================================================================== *)
(** ** table_azure_network_watcher_flow_log.go *)

(** [listNetworkWatcherFlowLogs]; [networkWatcherDetails] is [h.Item].
    [*networkWatcherDetails.Name] is first dereferenced for the [List]
    call, so the later dereferences in the loops cannot fail. The final
    [return nil, err] is reached with [err == nil] only. *)
Definition listNetworkWatcherFlowLogs (fuel : nat) (env : Env)
    (networkWatcherDetails : Resource) : M Empty_set :=
  let* s := GetNewSession env in
  match s with
  | inl err => returnGo None (Some err)
  | inr session =>
    let* id := deref (ID networkWatcherDetails) in
    let* resourceGroupID := index (strings_Split id slash) 4 in
    let client := NewClient in
    let* client := ApplyRetryRules client in
    let* name := deref (Name networkWatcherDetails) in
    let* r := client_List env client [resourceGroupID; name] in
    match r with
    | inl err => returnGo None (Some err)
    | inr result =>
      forRange (Values result) (fun flowLog =>
        StreamListItem (VFlowLogInfo flowLog name) >>
        let* n := RowsRemaining env in
        if Nat.eqb n 0 then returnGo None None else ret tt) >>
      let* result := forNotDone fuel result (fun result =>
        WaitForListRateLimit >>
        let* r := NextWithContext env result in
        match r with
        | inl err => returnGo None (Some err)
        | inr result =>
          forRange (Values result) (fun flowLog =>
            StreamListItem (VFlowLogInfo flowLog name) >>
            let* n := RowsRemaining env in
            if Nat.eqb n 0 then returnGo None None else ret tt) >>
          ret result
        end) in
      returnGo None None
    end
  end.

(** [getNetworkWatcherFlowLog] *)
Definition getNetworkWatcherFlowLog (env : Env) : M Empty_set :=
  let* networkWatcherName := GetStringValue "network_watcher_name" in
  let* name := GetStringValue "name" in
  let* resourceGroup := GetStringValue "resource_group" in
  let* s := GetNewSession env in
  match s with
  | inl err => returnGo None (Some err)
  | inr session =>
    let client := NewClient in
    let* client := ApplyRetryRules client in
    let* r := client_Get env client [resourceGroup; networkWatcherName; name] in
    match r with
    | inl err => returnGo None (Some err)
    | inr op => returnGo (Some (VFlowLogInfo op networkWatcherName)) None
    end
  end.

(* ================================================================== *)
(** ** table_azure_subscription.go *)

(** [listSubscriptions]: a list function that gets one object and streams
    it. *)
Definition listSubscriptions (env : Env) : M Empty_set :=
  let* s := GetNewSession env in
  match s with
  | inl err => returnGo None (Some err)
  | inr session =>
    let client := NewClient in
    let subscriptionID := SubscriptionID session in
    let* client := ApplyRetryRules client in
    let* r := client_Get env client [subscriptionID] in
    match r with
    | inl err => returnGo None (Some err)
    | inr op =>
      StreamListItem (VResource op) >>
      returnGo None None
    end
  end.

(* ================================================================== *)
(** ** table_azure_security_center.go *)

(** [getSecurityCenterDetails], the table's list function: it streams the
    subscription ID and calls no API. *)
Definition getSecurityCenterDetails (env : Env) : M Empty_set :=
  let* s := GetNewSession env in
  match s with
  | inl err => returnGo None (Some err)
  | inr session =>
    let subscriptionID := SubscriptionID session in
    StreamListItem (VString subscriptionID) >>
    returnGo None None
  end.

(* ================================================================== *)
(** ** The list operations and the shape they share *)

Inductive ListOp :=
| ListAppConfigurations
| ListPolicyAssignments
| ListIamRoleDefinitions
| ListBackendAddressPools
| ListSecurityCenterAutoProvisioning
| ListNetworkWatcherFlowLogs
| ListNetworkWatchers
| ListSubscriptions
| ListSecurityCenterDetails.

(** Runs a list operation; [h] is the parent item ([h.Item]) of the
    operations that have a parent hydrate. *)
Definition runList (op : ListOp) (fuel : nat) (env : Env) (h : Resource)
  : M Empty_set :=
  match op with
  | ListAppConfigurations => listAppConfigurations fuel env
  | ListPolicyAssignments => listPolicyAssignments fuel env
  | ListIamRoleDefinitions => listIamRoleDefinitions fuel env
  | ListBackendAddressPools => listBackendAddressPools fuel env h
  | ListSecurityCenterAutoProvisioning =>
      listSecurityCenterAutoProvisioning fuel env
  | ListNetworkWatcherFlowLogs => listNetworkWatcherFlowLogs fuel env h
  | ListNetworkWatchers => listNetworkWatchers env
  | ListSubscriptions => listSubscriptions env
  | ListSecurityCenterDetails => getSecurityCenterDetails env
  end.

(** The Get operations. *)
Inductive GetOp :=
| GetAppConfiguration
| GetPolicyAssignment
| GetIamRoleDefinition
| GetBackendAddressPool
| GetSecurityCenterAutoProvisioning
| GetNetworkWatcher
| GetNetworkWatcherFlowLog.

Definition runGet (op : GetOp) (env : Env) : M Empty_set :=
  match op with
  | GetAppConfiguration => getAppConfiguration env
  | GetPolicyAssignment => getPolicyAssignment env
  | GetIamRoleDefinition => getIamRoleDefinition env
  | GetBackendAddressPool => getBackendAddressPool env
  | GetSecurityCenterAutoProvisioning => getSecurityCenterAutoProvisioning env
  | GetNetworkWatcher => getNetworkWatcher env
  | GetNetworkWatcherFlowLog => getNetworkWatcherFlowLog env
  end.

(** [KeyColumns] of each table's [GetConfig]. *)
Definition KeyColumns (op : GetOp) : list string :=
  match op with
  | GetAppConfiguration => ["name"; "resource_group"]
  | GetPolicyAssignment => ["id"]
  | GetIamRoleDefinition => ["name"]
  | GetBackendAddressPool => ["load_balancer_name"; "name"; "resource_group"]
  | GetSecurityCenterAutoProvisioning => ["name"]
  | GetNetworkWatcher => ["name"; "resource_group"]
  | GetNetworkWatcherFlowLog =>
      ["network_watcher_name"; "name"; "resource_group"]
  end.

(** The places where a resource ID is split on the slash and a fixed
    segment is taken. *)
Inductive SegmentUse :=
| InListBackendAddressPools
| InListNetworkWatcherFlowLogs
| InExtractLoadBalancerName.

Definition segmentIndex (u : SegmentUse) : nat :=
  match u with
  | InListBackendAddressPools => 4
  | InListNetworkWatcherFlowLogs => 4
  | InExtractLoadBalancerName => 8
  end.

Definition runSegmentUse (u : SegmentUse) (fuel : nat) (env : Env)
    (item : Resource) : M Empty_set :=
  match u with
  | InListBackendAddressPools => listBackendAddressPools fuel env item
  | InListNetworkWatcherFlowLogs => listNetworkWatcherFlowLogs fuel env item
  | InExtractLoadBalancerName =>
      extractLoadBalancerNameFromBackendAddressPoolID item
  end.

(** The operations that list through a pager. *)
Definition paged (op : ListOp) : bool :=
  match op with
  | ListNetworkWatchers | ListSubscriptions | ListSecurityCenterDetails =>
      false
  | _ => true
  end.

(** What distinguishes the paged list functions from one another once the
    client is set up. *)
Record Shape := {
  checks : bool;                 (* RowsRemaining is consulted per row *)
  listErrInItem : bool;          (* a List error is returned as the item *)
  nextErrInItem : bool;          (* a NextWithContext error likewise *)
  wrap : Resource → value        (* what is streamed for an item *)
}.

Definition streamItem (sh : Shape) (env : Env) (v : Resource)
  : M unit :=
  if checks sh then
    StreamListItem (wrap sh v) >>
    let* n := RowsRemaining env in
    if Nat.eqb n 0 then returnGo None None else ret tt
  else StreamListItem (wrap sh v).

Definition errReturn {A} (inItem : bool) (e : error) : M A :=
  if inItem then returnGo (Some (VError e)) None else returnGo None (Some e).

Definition nextPage (sh : Shape) (env : Env) (result : Pager) : M Pager :=
  WaitForListRateLimit >>
  let* r := NextWithContext env result in
  match r with
  | inl err => errReturn (nextErrInItem sh) err
  | inr result => forRange (Values result) (streamItem sh env) >> ret result
  end.

(** The common tail of the paged list functions, from the [List] call on. *)
Definition pagedFrom (sh : Shape) (fuel : nat) (env : Env) (c : Client)
    (args : list string) : M Empty_set :=
  let* r := client_List env c args in
  match r with
  | inl err => errReturn (listErrInItem sh) err
  | inr result =>
    forRange (Values result) (streamItem sh env) >>
    let* result := forNotDone fuel result (nextPage sh env) in
    returnGo None None
  end.

Definition withSession (env : Env) (k : Session → M Empty_set) : M Empty_set :=
  let* s := GetNewSession env in
  match s with
  | inl err => returnGo None (Some err)
  | inr session => k session
  end.

Definition shapeOf (op : ListOp) (name : string) : Shape :=
  match op with
  | ListAppConfigurations =>
      {| checks := false; listErrInItem := false; nextErrInItem := false;
         wrap := VResource |}
  | ListPolicyAssignments =>
      {| checks := true; listErrInItem := true; nextErrInItem := false;
         wrap := VResource |}
  | ListSecurityCenterAutoProvisioning =>
      {| checks := true; listErrInItem := true; nextErrInItem := true;
         wrap := VResource |}
  | ListNetworkWatcherFlowLogs =>
      {| checks := true; listErrInItem := false; nextErrInItem := false;
         wrap := fun flowLog => VFlowLogInfo flowLog name |}
  | _ =>
      {| checks := true; listErrInItem := false; nextErrInItem := false;
         wrap := VResource |}
  end.

(* ================================================================== *)
(** ** Vocabulary of the statements *)

(** The world in which the common tail of a paged list function starts. *)
Definition readyWorld (quals : gmap string string) (budget : nat) : World :=
  logged EvApplyRetryRules (logged EvGetNewSession (initWorld quals budget)).

(** [triple P m Q E]: started in a world satisfying [P], [m] either
    continues with a result and world satisfying [Q], or stops with an
    outcome and world satisfying [E]. *)
Definition triple {A} (P : World → Prop) (m : M A)
    (Q : A → World → Prop) (E : outcome → World → Prop) : Prop :=
  ∀ w, P w →
    match m w with
    | (Continue a, w') => Q a w'
    | (Stop o, w') => E o w'
    end.

(** On the log (most recent first): right below every [NextWithContext]
    call lies a rate-limit wait, and below any other call lies no wait at
    all. *)
Fixpoint disciplined (l : list Event) : Prop :=
  match l with
  | [] => True
  | EvCall OpNext _ _ :: l' =>
      head l' = Some EvWaitForListRateLimit ∧ disciplined l'
  | EvCall _ _ _ :: l' => (EvWaitForListRateLimit ∉ l') ∧ disciplined l'
  | _ :: l' => disciplined l'
  end.

(** The same discipline read off the history (oldest first). *)
Definition waitsBeforeNext (hist : list Event) : Prop :=
  ∀ pre retry args post,
    hist = pre ++ EvCall OpNext retry args :: post →
    ∃ pre', pre = pre' ++ [EvWaitForListRateLimit].

Definition firstFetchUnwaited (hist : list Event) : Prop :=
  ∀ pre op retry args post,
    hist = pre ++ EvCall op retry args :: post →
    op ≠ OpNext → EvWaitForListRateLimit ∉ pre.

(** Before the first fetch: disciplined, and no wait so far. *)
Definition quiet (w : World) : Prop :=
  disciplined (log w) ∧ EvWaitForListRateLimit ∉ log w.

Definition orderly (w : World) : Prop := disciplined (log w).

(** The items of page [i], and of the pages before page [m], in provider
    order. *)
Definition itemsAt (env : Env) (i : nat) : list Resource :=
  match pages env i with
  | inr p => Value p
  | inl _ => []
  end.

Definition itemsUpTo (env : Env) (m : nat) : list Resource :=
  flat_map (itemsAt env) (seq 0 m).

(** A look at the budget reports zero: the budget is used up, or the
    context has been cancelled. *)
Definition spent (env : Env) (w : World) : Prop :=
  rowsRemaining w = 0 ∨ ctxCancelled env w = true.



(** What a list operation streams for an item. *)
Definition wrapOf (op : ListOp) (h : Resource) : Resource → value :=
  wrap (shapeOf op (default "" (Name h))).


(** The pager reports done on page [N]. *)
Definition pagerFinishes (env : Env) (N : nat) : Prop :=
  ∃ pg, pages env N = inr pg ∧ more pg = false.

(** The page the pager stands on reports no further pages. *)
Definition pagerDone (env : Env) (w : World) : Prop :=
  ∃ p pg, pagesFetched w = S p ∧ pages env p = inr pg ∧ more pg = false.

(** The fetch after the pages obtained so far fails. *)
Definition fetchFailed (env : Env) (w : World) : Prop :=
  ∃ e, pages env (pagesFetched w) = inl e.

(** Every page before the one the pager stands on reported further
    pages. *)
Definition earlierPagesNotDone (env : Env) (w : World) : Prop :=
  ∀ i, S i < pagesFetched w → ∃ pg, pages env i = inr pg ∧ more pg = true.

(** Why a run that reached the page loop has left it. *)
Definition loopExit (env : Env) (w : World) : Prop :=
  pagerDone env w ∨ spent env w ∨ fetchFailed env w.

(* ------------------------------------------------------------------ *)
(** Sample data for the concrete runs below. *)

Definition resA : Resource :=
  {| ID := Some "/subscriptions/sub/resourceGroups/rg/providers/Microsoft.Network/loadBalancers/lb/backendAddressPools/a";
     Name := Some "a" |}.
Definition resB : Resource :=
  {| ID := Some "/subscriptions/sub/resourceGroups/rg/providers/Microsoft.Network/loadBalancers/lb/backendAddressPools/b";
     Name := Some "b" |}.
Definition resC : Resource :=
  {| ID := Some "/subscriptions/sub/resourceGroups/rg/providers/Microsoft.Network/loadBalancers/lb/backendAddressPools/c";
     Name := Some "c" |}.

Definition sampleSession : error + Session :=
  inr {| SubscriptionID := "sub" |}.

(** A provider with two pages: [a; b] with more to come, then [c]. *)
Definition twoPages : Env :=
  {| session := sampleSession;
     pages := fun k => match k with
                       | 0 => inr {| Value := [resA; resB]; more := true |}
                       | _ => inr {| Value := [resC]; more := false |}
                       end;
     listAll := inr (Some [resA; resB]);
     getResp := inr resA;
     cancelAt := None |}.

(** A provider whose first page announces more, and whose second page
    fails to load. *)
Definition secondPageFails : Env :=
  {| session := sampleSession;
     pages := fun k => match k with
                       | 0 => inr {| Value := [resA]; more := true |}
                       | _ => inl (Err "InternalServerError")
                       end;
     listAll := inl (Err "InternalServerError");
     getResp := inl (Err "InternalServerError");
     cancelAt := None |}.


(** A provider that refuses every request. *)
Definition accessDenied : Env :=
  {| session := sampleSession;
     pages := fun _ => inl (Err "AuthorizationFailed");
     listAll := inl (Err "AuthorizationFailed");
     getResp := inl (Err "AuthorizationFailed");
     cancelAt := None |}.

(** A provider that answers a Get with an object without ID. *)
Definition emptyObject : Env :=
  {| session := sampleSession;
     pages := fun _ => inr {| Value := []; more := false |};
     listAll := inr (Some []);
     getResp := inr {| ID := None; Name := None |};
     cancelAt := None |}.

Definition sampleQuals : gmap string string :=
  {[ "name" := "default"; "resource_group" := "rg";
     "load_balancer_name" := "lb" ]}.

(** The number of occurrences of a character in a string. *)
Fixpoint countChar (c : ascii) (s : string) : nat :=
  match s with
  | EmptyString => 0
  | String a s' => (if Ascii.eqb a c then 1 else 0) + countChar c s'
  end.

(** Every API call in the log was issued by a client that has the retry
    rules applied. *)
Definition retried (l : list Event) : Prop :=
  Forall (fun e => match e with
                   | EvCall _ retry _ => retry = true
                   | _ => True
                   end) l.

(** Modelled from the spec: [isNotFoundError], the predicate the table
    definitions pass as [ShouldIgnoreErrorFunc]; its body is not among the
    sources at hand. Following the spec ("the resource's ignore-list
    includes that error code"), it holds of an error whose code is one of
    the listed codes. *)
Definition isNotFoundError (notFoundErrors : list string) (e : error) : bool :=
  bool_decide (code e ∈ notFoundErrors).

(** [IgnoreConfig] of each table's [GetConfig], where the table has one. *)
Definition IgnoreConfig (op : GetOp) : option (error → bool) :=
  match op with
  | GetAppConfiguration | GetBackendAddressPool | GetNetworkWatcher
  | GetNetworkWatcherFlowLog =>
      Some (isNotFoundError ["ResourceNotFound"; "ResourceGroupNotFound"; "404"])
  | GetPolicyAssignment | GetIamRoleDefinition =>
      Some (isNotFoundError ["ResourceNotFound"; "ResourceGroupNotFound"])
  | GetSecurityCenterAutoProvisioning => None
  end.

(** What the host makes of a Get: an error that the table's
    [ShouldIgnoreErrorFunc] accepts gives no row, any other error fails the
    query, a nil item gives no row, and an item becomes the row. *)
Inductive GetResult :=
| NoRow
| Row (v : value)
| Failure (e : error)
| Crash.

Definition hostGet (op : GetOp) (env : Env) (w : World) : GetResult :=
  match (call (runGet op env) w).1 with
  | Returned {| item := _; err := Some e |} =>
      match IgnoreConfig op with
      | Some ShouldIgnoreErrorFunc =>
          if ShouldIgnoreErrorFunc e then NoRow else Failure e
      | None => Failure e
      end
  | Returned {| item := Some v; err := None |} => Row v
  | Returned {| item := None; err := None |} => NoRow
  | _ => Crash
  end.

(* ------------------------------------------------------------------ *)
(** Classification of the handlers, read off their sources. *)

(** The list functions that read the parent item ([h.Item]). *)
Definition usesParent (op : ListOp) : bool :=
  match op with
  | ListBackendAddressPools | ListNetworkWatcherFlowLogs => true
  | _ => false
  end.

(** The parent item can be used: its ID is set and has a segment 4, and
    its Name is set. *)
Definition parentReady (op : ListOp) (h : Resource) : Prop :=
  usesParent op = true →
  ∃ id rg name, ID h = Some id ∧ strings_Split id slash !! 4 = Some rg ∧
                Name h = Some name.

(** The list functions that hand a [List] error, respectively a
    [NextWithContext] error, back in the item position. *)
Definition listErrorInItem (op : ListOp) : bool :=
  match op with
  | ListPolicyAssignments | ListSecurityCenterAutoProvisioning => true
  | _ => false
  end.

Definition nextErrorInItem (op : ListOp) : bool :=
  match op with
  | ListSecurityCenterAutoProvisioning => true
  | _ => false
  end.

(** The Get functions that return early on an empty key qual. *)
Definition checksQuals (op : GetOp) : bool :=
  match op with
  | GetAppConfiguration | GetBackendAddressPool => true
  | _ => false
  end.

(** No key qual stops the Get function before it starts. *)
Definition qualsReady (op : GetOp) (quals : gmap string string) : Prop :=
  checksQuals op = true → ∀ k, k ∈ KeyColumns op → qual quals k ≠ "".

(** The Get functions that look at the ID of the object they got. *)
Definition checksID (op : GetOp) : bool :=
  match op with
  | GetAppConfiguration | GetBackendAddressPool | GetNetworkWatcher => true
  | _ => false
  end.

(** The Get functions that hand a provider error back in the item
    position. *)
Definition getErrorInItem (op : GetOp) : bool :=
  match op with
  | GetPolicyAssignment | GetSecurityCenterAutoProvisioning => true
  | _ => false
  end.

(** What a Get function returns as the item for the object it got. *)
Definition getItem (op : GetOp) (quals : gmap string string)
    (obj : Resource) : value :=
  match op with
  | GetNetworkWatcherFlowLog =>
      VFlowLogInfo obj (qual quals "network_watcher_name")
  | _ => VResource obj
  end.

(** A connection whose session cannot be created. *)
Definition noSession : Env :=
  {| session := inl (Err "ExpiredAuthenticationToken");
     pages := fun _ => inr {| Value := [resA]; more := false |};
     listAll := inr (Some [resA]);
     getResp := inr resA;
     cancelAt := None |}.

(** A provider whose [ListAll] answers without a value. *)
Definition nilValue : Env :=
  {| session := sampleSession;
     pages := fun _ => inr {| Value := []; more := false |};
     listAll := inr None;
     getResp := inr resA;
     cancelAt := None |}.

Definition shortParent : Resource :=
  {| ID := Some "/subscriptions/sub"; Name := Some "lb" |}.

(** The number of slash-separated segments of a resource ID. *)
Definition segments (id : string) : nat := length (strings_Split id slash).

(** The run of a segment use does not leave through the out-of-bounds
    branch. *)
Definition indexedInBounds (u : SegmentUse) (fuel : nat) (env : Env)
    (item : Resource) (w : World) : Prop :=
  ∀ i len, (call (runSegmentUse u fuel env item) w).1
           ≠ Panicked (IndexOutOfRange i len).

(** A parent whose ID has four segments: the empty one before the first
    slash, [subscriptions], [sub] and [resourceGroups]. *)
Definition truncatedParent : Resource :=
  {| ID := Some "/subscriptions/sub/resourceGroups"; Name := Some "lb" |}.

(** The list functions that consult [RowsRemaining] after each row. *)
Definition checksRows (op : ListOp) : bool :=
  match op with
  | ListAppConfigurations | ListSubscriptions | ListSecurityCenterDetails =>
      false
  | _ => true
  end.

(** The pages up to page [N] load, and every page before page [N] reports
    further pages. *)
Definition pagesLoad (env : Env) (N : nat) : Prop :=
  (∀ i, i ≤ N → ∃ p, pages env i = inr p) ∧
  (∀ i p, i < N → pages env i = inr p → more p = true).

(** The two ways an error is handed back. *)
Definition errorReturn (inItem : bool) (e : error) : goReturn :=
  if inItem then GoReturn (Some (VError e)) None else GoReturn None (Some e).

(** How a paged listing over pages [0..N] that load can end: the budget
    is reached on the way, or all their items are streamed and then the
    pager is done or the next fetch fails. *)
Definition listingEnd (sh : Shape) (env : Env) (N n : nat)
    (o : outcome) (w : World) : Prop :=
  let all := itemsUpTo env (S N) in
  (o = Returned (GoReturn None None) ∧ checks sh = true ∧ n ≤ length all ∧
   rows w = map (wrap sh) (take n all))
  ∨ (rows w = map (wrap sh) all ∧ (checks sh = true → length all < n) ∧
     ∃ pN, pages env N = inr pN ∧
       ((more pN = false ∧ o = Returned (GoReturn None None))
        ∨ (more pN = true ∧
           ∃ e, pages env (S N) = inl e ∧
                o = Returned (errorReturn (nextErrInItem sh) e)))).

(** A provider with three pages, [a; b], [c] and [a], the last of which
    is never reached by a budget of two. *)
Definition threePages : Env :=
  {| session := sampleSession;
     pages := fun k => match k with
                       | 0 => inr {| Value := [resA; resB]; more := true |}
                       | 1 => inr {| Value := [resC]; more := true |}
                       | _ => inr {| Value := [resA]; more := false |}
                       end;
     listAll := inr (Some []);
     getResp := inr resA;
     cancelAt := None |}.

(** On the history: every streamed row is followed at once by a look at
    the row budget. *)
Definition checkedAfterEachRow (hist : list Event) : Prop :=
  ∀ pre v post,
    hist = pre ++ EvStreamListItem v :: post →
    ∃ post', post = EvRowsRemaining :: post'.

(** The same on the log (most recent first): what lies right above a
    streamed row is a look at the budget, and the log does not end on a
    streamed row. *)
Fixpoint rowsChecked (l : list Event) : Prop :=
  match l with
  | [] => True
  | e :: l' =>
      match l' with
      | EvStreamListItem _ :: _ => e = EvRowsRemaining
      | _ => True
      end ∧ rowsChecked l'
  end.

Definition settled (l : list Event) : Prop :=
  match l with
  | EvStreamListItem _ :: _ => False
  | _ => True
  end.

Definition tidy (w : World) : Prop :=
  rowsChecked (log w) ∧ settled (log w).

Definition unasked (w : World) : Prop := EvRowsRemaining ∉ log w.

(** A resource ID written out from its path segments, a slash before
    each: [resourceID ["subscriptions"; s]] is ["/subscriptions/" ++ s]. *)
Fixpoint resourceID (segs : list string) : string :=
  match segs with
  | [] => ""
  | seg :: segs' => "/" +:+ seg +:+ resourceID segs'
  end.

Definition noSlash (s : string) : Prop := countChar slash s = 0.

(** The log of [w] continues the log [base]. *)
Definition extends (base : list Event) (w : World) : Prop :=
  ∃ l, log w = l ++ base.

(* ================================================================== *)
(** ** Column hydrates and transforms *)

(** A value put into an object map ([map[string]interface{}]): a
    [*string] (possibly nil), a pointer to a properties struct (possibly
    nil, the struct itself kept opaque), or a string of an enum type. *)
Inductive field :=
| FStringPtr (p : option string)
| FObjectPtr (p : option string)
| FEnum (s : string).

(** What a hydrate or transform returns through [interface{}]. *)
Inductive hydrated :=
| HMaps (ms : list (gmap string field))
| HEnum (s : string)
| HObject (r : Resource)
| HError (e : error).

Record hydrateReturn :=
  HydrateReturn { hItem : option hydrated; hErr : option error }.

(** The functions below have no [return] inside a loop: each [return] is
    the result of the computation. *)
Definition returnH (i : option hydrated) (e : option error)
  : M hydrateReturn :=
  ret (HydrateReturn i e).

Inductive hydrateOutcome :=
| HReturned (r : hydrateReturn)
| HStopped (o : outcome).

Definition callHydrate (body : M hydrateReturn) (w : World)
  : hydrateOutcome * World :=
  match body w with
  | (Continue r, w') => (HReturned r, w')
  | (Stop o, w') => (HStopped o, w')
  end.

(** [for _, i := range xs { ...; acc = append(acc, f(i)) }] *)
Fixpoint rangeAppend {A B} (xs : list A) (f : A → B) (acc : list B)
  : list B :=
  match xs with
  | [] => acc
  | x :: xs' => rangeAppend xs' f (acc ++ [f x])
  end.

(** [p != nil] *)
Definition notNil {A} (p : option A) : bool :=
  match p with
  | Some _ => true
  | None => false
  end.

(** [if c { objectMap[k] = v }] *)
Definition setIf (c : bool) (k : string) (v : field)
    (objectMap : gmap string field) : gmap string field :=
  if c then <[k := v]> objectMap else objectMap.

(** [len(s) > 0] on a string *)
Definition nonEmpty (s : string) : bool := negb (bool_decide (s = "")).

(* ------------------------------------------------------------------ *)
(** *** table_azure_app_configuration.go *)

(** The SDK types the functions read, with the fields they touch. The
    properties structs are embedded by pointer, so reading a promoted
    field dereferences that pointer. *)
Record PrivateLinkServiceConnectionState := {
  plsStatus : string;
  plsDescription : option string;
  plsActionsRequired : string
}.

Record PrivateEndpointConnectionProperties := {
  pecProvisioningState : string;
  pecPrivateEndpoint : option (option string);   (* the endpoint, its ID *)
  pecPrivateLinkServiceConnectionState :
    option PrivateLinkServiceConnectionState
}.

Record PrivateEndpointConnectionReference := {
  pecID : option string;
  pecName : option string;
  pecType : option string;
  pecProperties : option PrivateEndpointConnectionProperties
}.

Record ConfigurationStoreProperties := {
  PrivateEndpointConnections :
    option (list PrivateEndpointConnectionReference);
  PublicNetworkAccess : string
}.

Record ConfigurationStore := {
  csID : option string;
  csProperties : option ConfigurationStoreProperties
}.

Record DiagnosticSettingsResource := {
  dsID : option string;
  dsName : option string;
  dsType : option string;
  dsDiagnosticSettings : option string
}.

(** The object map [listAppConfigurationDiagnosticSettings] builds for one
    diagnostic setting. *)
Definition diagnosticSettingMap (i : DiagnosticSettingsResource)
  : gmap string field :=
  let objectMap := ∅ in
  let objectMap := setIf (notNil (dsID i)) "id" (FStringPtr (dsID i))
                     objectMap in
  let objectMap := setIf (notNil (dsName i)) "name" (FStringPtr (dsName i))
                     objectMap in
  let objectMap := setIf (notNil (dsType i)) "type" (FStringPtr (dsType i))
                     objectMap in
  let objectMap := setIf (notNil (dsDiagnosticSettings i)) "properties"
                     (FObjectPtr (dsDiagnosticSettings i)) objectMap in
  objectMap.

(** [listAppConfigurationDiagnosticSettings]; [store] is [h.Item] and
    [resp] the provider's answer to the diagnostic settings [List]. *)
Definition listAppConfigurationDiagnosticSettings (env : Env)
    (resp : error + option (list DiagnosticSettingsResource))
    (store : ConfigurationStore) : M hydrateReturn :=
  let* id := deref (csID store) in
  let* s := GetNewSession env in
  match s with
  | inl err => returnH None (Some err)
  | inr session =>
    let client := NewClient in
    let* client := ApplyRetryRules client in
    emit (EvCall OpList (retryRules client) [id]) >>
    match resp with
    | inl err => returnH None (Some err)
    | inr op =>
      let* settings := deref op in
      let diagnosticSettings := rangeAppend settings diagnosticSettingMap [] in
      returnH (Some (HMaps diagnosticSettings)) None
    end
  end.

(** [getPublicNetworkAccess]; [configurationStore] is [h.Item]. *)
Definition getPublicNetworkAccess (configurationStore : ConfigurationStore)
  : M hydrateReturn :=
  let* props := deref (csProperties configurationStore) in
  if negb (nonEmpty (PublicNetworkAccess props))
     && negb (notNil (PrivateEndpointConnections props)) then
    returnH (Some (HEnum "Enabled")) None
  else if negb (nonEmpty (PublicNetworkAccess props))
          && notNil (PrivateEndpointConnections props) then
    returnH (Some (HEnum "Disabled")) None
  else
    returnH (Some (HEnum (PublicNetworkAccess props))) None.



(* ------------------------------------------------------------------ *)
(** *** table_azure_security_center.go: the column hydrates *)

(** An element of a security list result (an auto provisioning setting, a
    contact, a setting, a pricing): the three [*string] fields, the
    properties struct embedded by pointer, and the [Kind] of a setting. *)
Record SecurityItem := {
  siID : option string;
  siName : option string;
  siType : option string;
  siProperties : option string;
  siKind : string
}.

(** The first page of a security list result and whether the pager
    reports further pages. *)
Record SecurityPage := { spValues : list SecurityItem; spNotDone : bool }.

(** [client.List(ctx)] of a security client; [resp] is the provider's
    answer. *)
Definition security_List (resp : error + SecurityPage) (c : Client)
  : M (error + SecurityPage) :=
  emit (EvCall OpList (retryRules c) []) >>
  match resp with
  | inl e => ret (inl e)
  | inr p => fun w => (Continue (inr p), fetched w)
  end.

Definition provisionMap (provision : SecurityItem) : gmap string field :=
  let provisionMap := ∅ in
  let provisionMap := <["id" := FStringPtr (siID provision)]> provisionMap in
  let provisionMap :=
    <["name" := FStringPtr (siName provision)]> provisionMap in
  let provisionMap :=
    <["properties" := FObjectPtr (siProperties provision)]> provisionMap in
  let provisionMap :=
    <["type" := FStringPtr (siType provision)]> provisionMap in
  provisionMap.

(** [getProvisioningDetails] *)
Definition getProvisioningDetails (env : Env) (resp : error + SecurityPage)
  : M hydrateReturn :=
  let* s := GetNewSession env in
  match s with
  | inl err => returnH None (Some err)
  | inr session =>
    let autoProvisionClient := NewClient in
    let* r := security_List resp autoProvisionClient in
    match r with
    | inl err => returnH (Some (HError err)) None
    | inr autoProvisionList =>
      let provisioning :=
        rangeAppend (spValues autoProvisionList) provisionMap [] in
      returnH (Some (HMaps provisioning)) None
    end
  end.

Definition contactMap (contact : SecurityItem) : gmap string field :=
  let contactMap := ∅ in
  let contactMap := <["id" := FStringPtr (siID contact)]> contactMap in
  let contactMap := <["name" := FStringPtr (siName contact)]> contactMap in
  let contactMap :=
    <["properties" := FObjectPtr (siProperties contact)]> contactMap in
  let contactMap := <["type" := FStringPtr (siType contact)]> contactMap in
  contactMap.

(** [getContactDetails] *)
Definition getContactDetails (env : Env) (resp : error + SecurityPage)
  : M hydrateReturn :=
  let* s := GetNewSession env in
  match s with
  | inl err => returnH None (Some err)
  | inr session =>
    let contactClient := NewClient in
    let* r := security_List resp contactClient in
    match r with
    | inl err => returnH (Some (HError err)) None
    | inr contactList =>
      let contacts := rangeAppend (spValues contactList) contactMap [] in
      returnH (Some (HMaps contacts)) None
    end
  end.

(** [getPolicyDetails] *)
Definition getPolicyDetails (env : Env) : M hydrateReturn :=
  let* s := GetNewSession env in
  match s with
  | inl err => returnH None (Some err)
  | inr session =>
    let subscriptionID := SubscriptionID session in
    let PolicyClient := NewClient in
    let* r := client_Get env PolicyClient
                ["/subscriptions/" +:+ subscriptionID;
                 "SecurityCenterBuiltIn"] in
    match r with
    | inl err => returnH (Some (HError err)) None
    | inr policy => returnH (Some (HObject policy)) None
    end
  end.

Definition settingMap (setting : SecurityItem) : gmap string field :=
  let settingMap := ∅ in
  let settingMap := <["id" := FStringPtr (siID setting)]> settingMap in
  let settingMap := <["name" := FStringPtr (siName setting)]> settingMap in
  let settingMap := <["kind" := FEnum (siKind setting)]> settingMap in
  let settingMap := <["type" := FStringPtr (siType setting)]> settingMap in
  settingMap.

(** [getSettingDetails] *)
Definition getSettingDetails (env : Env) (resp : error + SecurityPage)
  : M hydrateReturn :=
  let* s := GetNewSession env in
  match s with
  | inl err => returnH None (Some err)
  | inr session =>
    let settingClient := NewClient in
    let* r := security_List resp settingClient in
    match r with
    | inl err => returnH (Some (HError err)) None
    | inr settingList =>
      let settings := rangeAppend (spValues settingList) settingMap [] in
      returnH (Some (HMaps settings)) None
    end
  end.

Definition pricingMap (pricing : SecurityItem) : gmap string field :=
  let pricingMap := ∅ in
  let pricingMap := <["id" := FStringPtr (siID pricing)]> pricingMap in
  let pricingMap := <["name" := FStringPtr (siName pricing)]> pricingMap in
  let pricingMap :=
    <["properties" := FObjectPtr (siProperties pricing)]> pricingMap in
  let pricingMap := <["type" := FStringPtr (siType pricing)]> pricingMap in
  pricingMap.

(** [getPricingsDetails] *)
Definition getPricingsDetails (env : Env) (resp : error + SecurityPage)
  : M hydrateReturn :=
  let* s := GetNewSession env in
  match s with
  | inl err => returnH None (Some err)
  | inr session =>
    let pricingClient := NewClient in
    let* r := security_List resp pricingClient in
    match r with
    | inl err => returnH (Some (HError err)) None
    | inr pricingList =>
      let pricings := rangeAppend (spValues pricingList) pricingMap [] in
      returnH (Some (HMaps pricings)) None
    end
  end.

(** The hydrates of the security center table by name. *)
Inductive SecurityHydrate :=
| ProvisioningDetails
| ContactDetails
| PolicyDetails
| SettingDetails
| PricingsDetails.

Definition runSecurityHydrate (h : SecurityHydrate) (env : Env)
    (resp : error + SecurityPage) : M hydrateReturn :=
  match h with
  | ProvisioningDetails => getProvisioningDetails env resp
  | ContactDetails => getContactDetails env resp
  | PolicyDetails => getPolicyDetails env
  | SettingDetails => getSettingDetails env resp
  | PricingsDetails => getPricingsDetails env resp
  end.

(* ------------------------------------------------------------------ *)
(** *** Vocabulary for the hydrates *)

(** The error the provider answers the one call of a security center
    hydrate with, if it answers with one: [getPolicyDetails] calls [Get],
    the others [List]. *)
Definition providerError (h : SecurityHydrate) (env : Env)
    (resp : error + SecurityPage) : option error :=
  match h with
  | PolicyDetails =>
      match getResp env with inl e => Some e | inr _ => None end
  | _ => match resp with inl e => Some e | inr _ => None end
  end.

(** The hydrates that build maps from a list result. *)
Definition buildsMaps (h : SecurityHydrate) : bool :=
  match h with
  | PolicyDetails => false
  | _ => true
  end.

(** Sample data. *)
Definition sampleStoreID : string :=
  "/subscriptions/sub/resourceGroups/rg/providers/Microsoft.AppConfiguration/configurationStores/store".

(** Properties with an empty connection list and no access setting. *)
Definition sampleProperties : ConfigurationStoreProperties :=
  {| PrivateEndpointConnections := Some []; PublicNetworkAccess := "" |}.

Definition sampleStore : ConfigurationStore :=
  {| csID := Some sampleStoreID; csProperties := Some sampleProperties |}.

Definition storeWithoutID : ConfigurationStore :=
  {| csID := None; csProperties := None |}.

Definition sampleSetting : DiagnosticSettingsResource :=
  {| dsID := Some "/subscriptions/sub/providers/microsoft.insights/diagnosticSettings/logs";
     dsName := Some "logs"; dsType := None;
     dsDiagnosticSettings := Some "{}" |}.




(** A first page with one element without ID, reporting more pages. *)
Definition firstOfMany : SecurityPage :=
  {| spValues := [{| siID := None; siName := Some "default";
                     siType := None; siProperties := None;
                     siKind := "DataExportSetting" |}];
     spNotDone := true |}.

(* ================================================================== *)
(** * Properties *)

(** Each paged list function is the common tail behind its own set-up. *)
Lemma listAppConfigurations_shape fuel env :
  listAppConfigurations fuel env =
  withSession env (fun _ =>
    let* c := ApplyRetryRules NewClient in
    pagedFrom (shapeOf ListAppConfigurations "") fuel env c [""]).
Proof. reflexivity. Qed.

Lemma listPolicyAssignments_shape fuel env :
  listPolicyAssignments fuel env =
  withSession env (fun _ =>
    let* c := ApplyRetryRules NewClient in
    pagedFrom (shapeOf ListPolicyAssignments "") fuel env c [""]).
Proof. reflexivity. Qed.

Lemma listIamRoleDefinitions_shape fuel env :
  listIamRoleDefinitions fuel env =
  withSession env (fun session =>
    let* c := ApplyRetryRules NewClient in
    pagedFrom (shapeOf ListIamRoleDefinitions "") fuel env c
      ["/subscriptions/" +:+ SubscriptionID session; ""]).
Proof. reflexivity. Qed.

Lemma listSecurityCenterAutoProvisioning_shape fuel env :
  listSecurityCenterAutoProvisioning fuel env =
  withSession env (fun _ =>
    let* c := ApplyRetryRules NewClient in
    pagedFrom (shapeOf ListSecurityCenterAutoProvisioning "") fuel env c []).
Proof. reflexivity. Qed.

Lemma listBackendAddressPools_shape fuel env h :
  listBackendAddressPools fuel env h =
  withSession env (fun _ =>
    let* id := deref (ID h) in
    let* resourceGroup := index (strings_Split id slash) 4 in
    let* c := ApplyRetryRules NewClient in
    let* name := deref (Name h) in
    pagedFrom (shapeOf ListBackendAddressPools name) fuel env c
      [resourceGroup; name]).
Proof. reflexivity. Qed.

Lemma listNetworkWatcherFlowLogs_shape fuel env h :
  listNetworkWatcherFlowLogs fuel env h =
  withSession env (fun _ =>
    let* id := deref (ID h) in
    let* resourceGroup := index (strings_Split id slash) 4 in
    let* c := ApplyRetryRules NewClient in
    let* name := deref (Name h) in
    pagedFrom (shapeOf ListNetworkWatcherFlowLogs name) fuel env c
      [resourceGroup; name]).
Proof. reflexivity. Qed.

(* ================================================================== *)
(** ** Looking at the budget *)

Lemma ctxCancelled_later env w w' :
  length (log w) ≤ length (log w') →
  ctxCancelled env w = true → ctxCancelled env w' = true.
Proof.
  unfold ctxCancelled. destruct (cancelAt env) as [t|]; [|discriminate].
  rewrite !bool_decide_eq_true. lia.
Qed.

Lemma ctxCancelled_never env w : cancelAt env = None → ctxCancelled env w = false.
Proof. unfold ctxCancelled. intros ->. reflexivity. Qed.

(** A look that reports zero leaves a world in which the budget is used
    up or the context cancelled. *)
Lemma spent_after_look env w w' :
  (if ctxCancelled env w then 0 else rowsRemaining w) = 0 →
  rowsRemaining w' = rowsRemaining w →
  length (log w) ≤ length (log w') →
  spent env w'.
Proof.
  intros Hz Hr Hl. destruct (ctxCancelled env w) eqn:Hc.
  - right. eapply ctxCancelled_later; eassumption.
  - left. congruence.
Qed.

(* ================================================================== *)
(** ** A program logic for the monad *)

Section Rules.
Context {A B : Type}.
Implicit Types (P : World → Prop) (E : outcome → World → Prop).

Lemma triple_ret P (a : A) (Q : A → World → Prop) E :
  (∀ w, P w → Q a w) → triple P (ret a) Q E.
Proof. intros H w Hw. simpl. auto. Qed.

Lemma triple_bind P (m : M A) (k : A → M B) R Q E :
  triple P m R E →
  (∀ a, triple (R a) (k a) Q E) →
  triple P (bind m k) Q E.
Proof.
  intros Hm Hk w Hw. unfold bind. specialize (Hm w Hw).
  destruct (m w) as [[a|o] w']; [exact (Hk a w' Hm) | exact Hm].
Qed.

Lemma triple_weaken P P' (m : M A) (Q Q' : A → World → Prop) E E' :
  triple P' m Q' E' →
  (∀ w, P w → P' w) →
  (∀ a w, Q' a w → Q a w) →
  (∀ o w, E' o w → E o w) →
  triple P m Q E.
Proof.
  intros Hm HP HQ HE w Hw. specialize (Hm w (HP w Hw)).
  destruct (m w) as [[a|o] w']; auto.
Qed.

Lemma triple_returnGo P i e (Q : A → World → Prop) E :
  (∀ w, P w → E (Returned (GoReturn i e)) w) →
  triple P (returnGo i e) Q E.
Proof. intros H w Hw. simpl. auto. Qed.

Lemma triple_raise P p (Q : A → World → Prop) E :
  (∀ w, P w → E (Panicked p) w) → triple P (raise p) Q E.
Proof. intros H w Hw. simpl. auto. Qed.

(** [for range]: the invariant is indexed by the items already visited. *)
Lemma triple_forRange (I : list A → World → Prop) (body : A → M unit)
    (vs : list A) E :
  (∀ seen v rest, vs = seen ++ v :: rest →
     triple (I seen) (body v) (fun _ => I (seen ++ [v])) E) →
  triple (I []) (forRange vs body) (fun _ => I vs) E.
Proof.
  intros Hbody.
  assert (G : ∀ rest seen, vs = seen ++ rest →
            triple (I seen) (forRange rest body) (fun _ => I vs) E).
  { induction rest as [|v rest IH]; intros seen Hvs.
    - rewrite app_nil_r in Hvs. subst seen. intros w Hw. exact Hw.
    - simpl. intros w Hw. unfold bind.
      pose proof (Hbody seen v rest Hvs w Hw) as Hb.
      destruct (body v w) as [[[]|o] w']; [|exact Hb].
      apply (IH (seen ++ [v])); [|exact Hb].
      rewrite <- app_assoc. exact Hvs. }
  apply (G vs []). reflexivity.
Qed.
End Rules.

(** [for result.NotDone()]: the invariant is indexed by the fuel left and
    the pager. *)
Lemma triple_forNotDone (I : nat → Pager → World → Prop)
    (body : Pager → M Pager) (Q : Pager → World → Prop)
    (E : outcome → World → Prop) fuel result :
  (∀ f r, NotDone r = true →
     triple (I (S f) r) (body r) (fun r' => I f r') E) →
  (∀ r w, NotDone r = true → I 0 r w → E OutOfFuel w) →
  (∀ f r w, NotDone r = false → I f r w → Q r w) →
  triple (I fuel result) (forNotDone fuel result body) Q E.
Proof.
  intros Hbody Hout Hdone. revert result.
  induction fuel as [|f IH]; intros r w Hw; simpl;
    destruct (NotDone r) eqn:Hnd; simpl; eauto.
  unfold bind. pose proof (Hbody f r Hnd w Hw) as Hb.
  destruct (body r w) as [[r'|o] w']; [|exact Hb].
  apply IH. exact Hb.
Qed.

Lemma triple_call (P : World → Prop) (body : M Empty_set) Q E w :
  triple P body Q E → P w → E (call body w).1 (call body w).2.
Proof.
  intros H Hw. unfold call. specialize (H w Hw).
  destruct (body w) as [[[]|o] w']. exact H.
Qed.

(** How a paged list function can go: the session fails, the set-up
    panics, or the common tail runs with a client that has the retry rules
    applied. *)
Lemma runList_paged_cases op fuel env h quals n :
  paged op = true →
  let r := call (runList op fuel env h) (initWorld quals n) in
  (∃ e, session env = inl e ∧
        r = (Returned (GoReturn None (Some e)),
             logged EvGetNewSession (initWorld quals n)))
  ∨ (∃ p, r = (Panicked p, logged EvGetNewSession (initWorld quals n)))
  ∨ (∃ p, r = (Panicked p, readyWorld quals n))
  ∨ (∃ name c args, retryRules c = true ∧
        wrap (shapeOf op name) = wrapOf op h ∧
        r = call (pagedFrom (shapeOf op name) fuel env c args)
                 (readyWorld quals n)).
Proof.
  intros Hp r. subst r.
  destruct op; try discriminate Hp; simpl runList;
    [ rewrite listAppConfigurations_shape
    | rewrite listPolicyAssignments_shape
    | rewrite listIamRoleDefinitions_shape
    | rewrite listBackendAddressPools_shape
    | rewrite listSecurityCenterAutoProvisioning_shape
    | rewrite listNetworkWatcherFlowLogs_shape ];
    unfold call, withSession, bind, GetNewSession, emit, ret; simpl;
    destruct (session env) as [e|ses]; simpl;
    try (left; eexists; split; reflexivity).
  1-3,5: right; right; right; eexists "", (Build_Client true), _; repeat split; reflexivity.
  all: destruct (ID h) as [id|]; simpl;
    [|right; left; eexists; reflexivity];
    unfold index; destruct (strings_Split id slash !! 4) as [rg|]; simpl;
    [|right; left; eexists; reflexivity];
    destruct (Name h) as [name|] eqn:HName; simpl;
    [|right; right; left; eexists; reflexivity];
    right; right; right; eexists name, (Build_Client true), _;
    unfold wrapOf; rewrite ?HName; repeat split; reflexivity.
Qed.

(* ================================================================== *)
(** ** Rate-limit discipline of the log *)

Lemma disciplined_tail e l : disciplined (e :: l) → disciplined l.
Proof. destruct e as [| |[] ? ?| | |]; simpl; tauto. Qed.

Lemma snoc_split {A} (xs pre post : list A) (e x : A) :
  xs ++ [e] = pre ++ x :: post →
  (post = [] ∧ x = e ∧ pre = xs) ∨
  (∃ post', post = post' ++ [e] ∧ xs = pre ++ x :: post').
Proof.
  intros H. destruct post as [|y post _] using rev_ind.
  - left. apply app_inj_tail in H. destruct H; auto.
  - right. exists post.
    rewrite app_comm_cons, app_assoc in H.
    apply app_inj_tail in H. destruct H as [H ->]. auto.
Qed.

Lemma disciplined_history l :
  disciplined l →
  waitsBeforeNext (reverse l) ∧ firstFetchUnwaited (reverse l).
Proof.
  unfold waitsBeforeNext, firstFetchUnwaited.
  induction l as [|e l IH]; intros Hd.
  - split.
    + intros pre ? ? ? H. destruct pre; discriminate H.
    + intros pre ? ? ? ? H. destruct pre; discriminate H.
  - destruct (IH (disciplined_tail _ _ Hd)) as [IH1 IH2].
    rewrite reverse_cons. split.
    + intros pre retry args post H.
      apply snoc_split in H as [(_ & <- & ->)|(post' & _ & H)].
      * simpl in Hd. destruct Hd as [Hh _].
        destruct l as [|e' l]; [discriminate|]. injection Hh as ->.
        exists (reverse l). apply reverse_cons.
      * eapply IH1; eauto.
    + intros pre op retry args post H Hop.
      apply snoc_split in H as [(_ & <- & ->)|(post' & _ & H)].
      * rewrite elem_of_reverse.
        destruct op; simpl in Hd; tauto.
      * eapply IH2; eauto.
Qed.

Lemma streamItem_orderly sh env v :
  triple orderly (streamItem sh env v) (fun _ => orderly) (fun _ => orderly).
Proof.
  intros w Hw. unfold streamItem, bind, StreamListItem, RowsRemaining.
  destruct (checks sh); simpl; [|exact Hw].
  destruct (Nat.eqb _ 0); exact Hw.
Qed.

Lemma forRange_streamItem_orderly sh env vs :
  triple orderly (forRange vs (streamItem sh env))
    (fun _ => orderly) (fun _ => orderly).
Proof.
  apply (triple_forRange (fun _ => orderly)).
  intros. apply streamItem_orderly.
Qed.

Lemma nextPage_orderly sh env r :
  triple orderly (nextPage sh env r) (fun _ => orderly) (fun _ => orderly).
Proof.
  unfold nextPage.
  eapply triple_bind with
    (R := fun _ w => orderly w ∧ head (log w) = Some EvWaitForListRateLimit).
  { intros w Hw. simpl. split; [exact Hw | reflexivity]. }
  intros ?.
  eapply triple_bind with (R := fun _ => orderly).
  { intros w [Hw Hh]. unfold NextWithContext, bind, emit. simpl.
    destruct (pages env (S (pos r))); simpl; split; assumption. }
  intros [e|r'].
  - unfold errReturn. destruct (nextErrInItem sh);
      apply triple_returnGo; auto.
  - eapply triple_bind; [apply forRange_streamItem_orderly|].
    intros ?. apply triple_ret. auto.
Qed.

Lemma pagedFrom_orderly sh fuel env c args :
  triple quiet (pagedFrom sh fuel env c args)
    (fun _ => orderly) (fun _ => orderly).
Proof.
  unfold pagedFrom.
  eapply triple_bind with (R := fun _ => orderly).
  { intros w [Hw Hq]. unfold client_List, bind, emit. simpl.
    destruct (pages env 0); simpl; split; assumption. }
  intros [e|r].
  - unfold errReturn. destruct (listErrInItem sh);
      apply triple_returnGo; auto.
  - eapply triple_bind; [apply forRange_streamItem_orderly|].
    intros ?. eapply triple_bind with (R := fun _ => orderly).
    + apply (triple_forNotDone (fun _ _ => orderly)); auto.
      intros. apply nextPage_orderly.
    + intros ?. apply triple_returnGo. auto.
Qed.

Lemma quiet_session w : quiet w → quiet (logged EvGetNewSession w).
Proof.
  intros [Hw Hq]. split; [exact Hw|]. simpl.
  apply not_elem_of_cons. split; [discriminate | exact Hq].
Qed.

Lemma quiet_retry w : quiet w → quiet (logged EvApplyRetryRules w).
Proof.
  intros [Hw Hq]. split; [exact Hw|]. simpl.
  apply not_elem_of_cons. split; [discriminate | exact Hq].
Qed.

Lemma quiet_init quals n : quiet (initWorld quals n).
Proof. split; simpl; [exact I | apply not_elem_of_nil]. Qed.

Lemma quiet_orderly w : quiet w → orderly w.
Proof. intros [Hw _]. exact Hw. Qed.

Lemma listNetworkWatchers_orderly env :
  triple quiet (listNetworkWatchers env) (fun _ => orderly) (fun _ => orderly).
Proof.
  unfold listNetworkWatchers.
  eapply triple_bind with (R := fun _ => quiet).
  { intros w Hw. apply quiet_session, Hw. }
  intros [e|ses];
    [apply triple_returnGo; intros w Hw; apply quiet_orderly, Hw|].
  eapply triple_bind with (R := fun _ => quiet).
  { intros w Hw. apply quiet_retry, Hw. }
  intros c. eapply triple_bind with (R := fun _ => orderly).
  { intros w [Hw Hq]. unfold client_ListAll, bind, emit. simpl.
    destruct (listAll env); simpl; split; assumption. }
  intros [e|[vs|]]; try (apply triple_returnGo; auto).
  - eapply triple_bind with (R := fun _ => orderly);
      [apply triple_ret; auto|].
    intros vs'. eapply triple_bind with (R := fun _ => orderly).
    + apply (forRange_streamItem_orderly (shapeOf ListNetworkWatchers "")).
    + intros ?. apply triple_returnGo. auto.
  - eapply triple_bind with (R := fun _ => orderly);
      [apply triple_raise; auto|].
    intros vs'. eapply triple_bind with (R := fun _ => orderly).
    + apply (forRange_streamItem_orderly (shapeOf ListNetworkWatchers "")).
    + intros ?. apply triple_returnGo. auto.
Qed.

(** C6. In every list operation, every [NextWithContext] call is issued
    right after a [WaitForListRateLimit] (the action just before it in the
    history of the run is the wait), and the first fetch ([List] or
    [ListAll]) is issued with no wait before it. This holds for every
    provider behaviour, budget and amount of fuel. *)
Theorem rate_limit_wait_precedes_every_next_page
    (op : ListOp) (fuel : nat) (env : Env) (h : Resource)
    (quals : gmap string string) (n : nat) :
  let w' := (call (runList op fuel env h) (initWorld quals n)).2 in
  waitsBeforeNext (history w') ∧ firstFetchUnwaited (history w').
Proof.
  intros w'. apply disciplined_history. subst w'.
  destruct (paged op) eqn:Hp.
  - destruct (runList_paged_cases op fuel env h quals n Hp)
      as [(e & _ & ->)|[(p & ->)|[(p & ->)|(name & c & args & _ & _ & ->)]]];
      try exact I.
    apply (triple_call quiet _ (fun _ => orderly) (fun _ => orderly)).
    + apply pagedFrom_orderly.
    + apply quiet_retry, quiet_session, quiet_init.
  - destruct op; try discriminate Hp; simpl runList.
    + apply (triple_call quiet _ (fun _ => orderly) (fun _ => orderly)).
      * apply listNetworkWatchers_orderly.
      * apply quiet_init.
    + unfold call, listSubscriptions, bind, GetNewSession, ApplyRetryRules,
        client_Get, StreamListItem, emit, ret. simpl.
      destruct (session env) as [e|ses]; simpl; [exact I|].
      destruct (getResp env) as [e|obj]; simpl;
        (split; [|exact I]); rewrite !not_elem_of_cons;
        repeat split; try discriminate; apply not_elem_of_nil.
    + unfold call, getSecurityCenterDetails, bind, GetNewSession,
        StreamListItem, emit, ret. simpl.
      destruct (session env) as [e|ses]; exact I.
Qed.

(* ================================================================== *)
(** ** Rows are emitted in provider order *)

Lemma itemsUpTo_S env m :
  itemsUpTo env (S m) = itemsUpTo env m ++ itemsAt env m.
Proof.
  unfold itemsUpTo. rewrite seq_S, flat_map_app. simpl.
  rewrite app_nil_r. reflexivity.
Qed.


Section Rows.
Variable sh : Shape.
Variable env : Env.











End Rows.





(* ================================================================== *)
(** ** Termination and the exits of the page loop *)

Section Exits.
Variable sh : Shape.
Variable env : Env.
Variable N : nat.
Hypothesis HN : pagerFinishes env N.

Let exited (o : outcome) (w : World) : Prop :=
  o ≠ OutOfFuel ∧ (0 < pagesFetched w → loopExit env w) ∧
  earlierPagesNotDone env w.

(** Between two pages, with [f] units of fuel left. *)
Let standing (f : nat) (r : Pager) (w : World) : Prop :=
  pages env (pos r) = inr (page r) ∧ pagesFetched w = S (pos r) ∧
  N ≤ pos r + f ∧ earlierPagesNotDone env w.

Lemma standing_bound f r w : standing f r w → pos r ≤ N.
Proof.
  intros (_ & Hm & _ & Hearly). destruct HN as (pg & HpN & Hmore).
  destruct (decide (pos r ≤ N)) as [|Hgt]; [assumption|].
  destruct (Hearly N) as (pg' & Hp' & Hmore'); [lia|]. congruence.
Qed.

Lemma streamItem_exits (P : World → Prop) v :
  (∀ w w', pagesFetched w' = pagesFetched w → P w → P w') →
  triple P (streamItem sh env v) (fun _ => P)
    (fun o w => o = Returned (GoReturn None None) ∧ spent env w ∧ P w).
Proof.
  intros Hstable w Hw.
  unfold streamItem, bind, StreamListItem, RowsRemaining.
  destruct (checks sh); simpl; [|eapply Hstable; [|exact Hw]; reflexivity].
  match goal with
  | |- context [Nat.eqb ?x 0] => destruct (Nat.eqb x 0) eqn:Hz
  end; simpl.
  - split; [reflexivity|]. split.
    + apply Nat.eqb_eq in Hz.
      apply (spent_after_look env (StreamListItem (wrap sh v) w).2);
        [exact Hz | reflexivity | simpl; lia].
    + eapply Hstable; [|exact Hw]; reflexivity.
  - eapply Hstable; [|exact Hw]; reflexivity.
Qed.

Lemma forRange_exits (P : World → Prop) vs :
  (∀ w w', pagesFetched w' = pagesFetched w → P w → P w') →
  triple P (forRange vs (streamItem sh env)) (fun _ => P)
    (fun o w => o = Returned (GoReturn None None) ∧ spent env w ∧ P w).
Proof.
  intros Hstable. apply (triple_forRange (fun _ => P)).
  intros. apply streamItem_exits, Hstable.
Qed.

Lemma standing_stable f r w w' :
  pagesFetched w' = pagesFetched w → standing f r w → standing f r w'.
Proof.
  intros Heq (Hp & Hm & Hf & Hearly). repeat split; try assumption.
  - congruence.
  - intros i Hi. apply Hearly. congruence.
Qed.

Lemma spent_exited f r o w :
  o = Returned (GoReturn None None) ∧ spent env w ∧ standing f r w →
  exited o w.
Proof.
  intros (-> & Hz & _ & _ & _ & Hearly).
  split; [discriminate|]. split; [|exact Hearly].
  intros _. right. left. exact Hz.
Qed.

Lemma nextPage_exits f r :
  NotDone r = true →
  triple (standing (S f) r) (nextPage sh env r)
    (fun r' => standing f r') exited.
Proof.
  intros Hnd. unfold nextPage.
  eapply triple_bind with (R := fun _ => standing (S f) r).
  { intros w Hw. eapply standing_stable; [|exact Hw]. reflexivity. }
  intros ?.
  eapply triple_bind with
    (R := fun x w => match x with
                     | inl _ => fetchFailed env w ∧ standing (S f) r w
                     | inr r' => standing f r' w
                     end).
  { intros w Hw. pose proof Hw as (Hp & Hm & Hf & Hearly).
    unfold NextWithContext, bind, emit. simpl.
    destruct (pages env (S (pos r))) as [e|p] eqn:Hnext; simpl.
    - split.
      + exists e. simpl. rewrite Hm. exact Hnext.
      + eapply standing_stable; [|exact Hw]. reflexivity.
    - repeat split; simpl; try assumption; try lia.
      intros i Hi. simpl in Hi. rewrite Hm in Hi.
      destruct (decide (i = pos r)) as [->|Hne].
      + exists (page r). split; [exact Hp | exact Hnd].
      + apply Hearly. lia. }
  intros [e|r'].
  - unfold errReturn. destruct (nextErrInItem sh); apply triple_returnGo;
      intros w (Hfail & _ & _ & _ & Hearly);
      (split; [discriminate|]); (split; [|exact Hearly]);
      intros _; right; right; exact Hfail.
  - eapply triple_bind with (R := fun _ => standing f r').
    + eapply triple_weaken.
      * apply (forRange_exits (standing f r')).
        intros w w'. apply standing_stable.
      * auto.
      * auto.
      * intros o w Hw. apply (spent_exited f r'), Hw.
    + intros ?. apply triple_ret. auto.
Qed.

Lemma pagedFrom_exits fuel c args :
  N ≤ fuel →
  triple (fun w => pagesFetched w = 0) (pagedFrom sh fuel env c args)
    (fun _ _ => False) exited.
Proof.
  intros Hfuel. unfold pagedFrom.
  eapply triple_bind with
    (R := fun x w => match x with
                     | inl _ => pagesFetched w = 0
                     | inr r => standing fuel r w
                     end).
  { intros w Hm. unfold client_List, bind, emit. simpl.
    destruct (pages env 0) as [e|p] eqn:Hp; simpl; [exact Hm|].
    repeat split; simpl; try assumption; try lia.
    intros i Hi. simpl in Hi. lia. }
  intros [e|r].
  - unfold errReturn. destruct (listErrInItem sh); apply triple_returnGo;
      intros w Hm; (split; [discriminate|]); unfold earlierPagesNotDone;
      rewrite Hm; split; intros; lia.
  - eapply triple_bind with (R := fun _ => standing fuel r).
    { eapply triple_weaken.
      * apply (forRange_exits (standing fuel r)).
        intros w w'. apply standing_stable.
      * auto.
      * auto.
      * intros o w Hw. apply (spent_exited fuel r), Hw. }
    intros ?.
    eapply triple_bind with
      (R := fun r' w => NotDone r' = false ∧ ∃ f, standing f r' w).
    + apply (triple_forNotDone standing).
      * intros. apply nextPage_exits. assumption.
      * intros r' w Hnd Hw. exfalso.
        pose proof (standing_bound _ _ _ Hw) as Hle.
        destruct Hw as (Hp & _ & Hf & _).
        destruct HN as (pg & HpN & Hmore).
        assert (pos r' = N) as Heq by lia. rewrite Heq in Hp.
        unfold NotDone in Hnd. congruence.
      * intros f r' w Hnd Hw. eauto.
    + intros r'. apply triple_returnGo.
      intros w (Hnd & f & Hp & Hm & _ & Hearly).
      split; [discriminate|]. split; [|exact Hearly].
      intros _. left. exists (pos r'), (page r'). auto.
Qed.
End Exits.

Lemma listNetworkWatchers_returns env :
  triple (fun _ => True) (listNetworkWatchers env)
    (fun _ _ => False) (fun o _ => o ≠ OutOfFuel).
Proof.
  unfold listNetworkWatchers.
  eapply triple_bind with (R := fun _ _ => True); [intros w _; exact I|].
  intros [e|ses]; [apply triple_returnGo; intros; discriminate|].
  eapply triple_bind with (R := fun _ _ => True); [intros w _; exact I|].
  intros c.
  eapply triple_bind with (R := fun _ _ => True).
  { intros w _. unfold client_ListAll, bind, emit. simpl.
    destruct (listAll env); exact I. }
  intros [e|[vs|]]; try (apply triple_returnGo; intros; discriminate).
  - eapply triple_bind with (R := fun _ _ => True);
      [apply triple_ret; auto|].
    intros vs'. eapply triple_bind with (R := fun _ _ => True).
    + eapply triple_weaken.
      * apply (forRange_exits (shapeOf ListNetworkWatchers "") env
                 (fun _ => True)). auto.
      * auto.
      * auto.
      * intros o w (-> & _). discriminate.
    + intros ?. apply triple_returnGo. intros; discriminate.
  - eapply triple_bind with (R := fun _ _ => True).
    + apply triple_raise. intros; discriminate.
    + intros vs'. eapply triple_bind with (R := fun _ _ => True).
      * eapply triple_weaken.
        -- apply (forRange_exits (shapeOf ListNetworkWatchers "") env
                    (fun _ => True)). auto.
        -- auto.
        -- auto.
        -- intros o w (-> & _). discriminate.
      * intros ?. apply triple_returnGo. intros; discriminate.
Qed.

(** C5 at [listAppConfigurations]: with a budget of one row and a provider
    with three pages, [a; b], [c] and [a], the budget is at zero after the
    first row, yet the page loop goes on until the pager is done: the
    function waits and fetches twice more and streams four rows. The same
    input through [listIamRoleDefinitions] ends after the first row, with
    one page fetched. *)
Theorem listAppConfigurations_pages_on_past_the_budget :
  (let r := call (runList ListAppConfigurations 3 threePages resA)
              (initWorld ∅ 1) in
   r.1 = Returned (GoReturn None None) ∧
   pagesFetched r.2 = 3 ∧
   rowsRemaining r.2 = 0 ∧
   history r.2 =
     [EvGetNewSession; EvApplyRetryRules; EvCall OpList true [""];
      EvStreamListItem (VResource resA); EvStreamListItem (VResource resB);
      EvWaitForListRateLimit; EvCall OpNext true [];
      EvStreamListItem (VResource resC);
      EvWaitForListRateLimit; EvCall OpNext true [];
      EvStreamListItem (VResource resA)])
  ∧
  (let r := call (runList ListIamRoleDefinitions 3 threePages resA)
              (initWorld ∅ 1) in
   r.1 = Returned (GoReturn None None) ∧
   pagesFetched r.2 = 1 ∧
   history r.2 =
     [EvGetNewSession; EvApplyRetryRules;
      EvCall OpList true ["/subscriptions/sub"; ""];
      EvStreamListItem (VResource resA); EvRowsRemaining]).
Proof. vm_compute. repeat split. Qed.

(** X28. If the pager reports done on some page [N], every list operation
    terminates (any fuel of at least [N] is enough, and the outcome is a
    return or a panic). For the paged operations, a run that got its
    first page leaves the page loop because the pager reports no further
    pages, a look at the budget reported zero (the budget is used up or
    the context has been cancelled), or a page fetch failed; and no page
    was fetched after one that reported done. *)
Theorem list_terminates_at_a_loop_exit
    (op : ListOp) (fuel : nat) (env : Env) (h : Resource)
    (quals : gmap string string) (n N : nat) :
  pagerFinishes env N →
  N ≤ fuel →
  let r := call (runList op fuel env h) (initWorld quals n) in
  r.1 ≠ OutOfFuel ∧
  (paged op = true →
   (0 < pagesFetched r.2 → loopExit env r.2) ∧ earlierPagesNotDone env r.2).
Proof.
  intros HN Hfuel r. subst r.
  destruct (paged op) eqn:Hp.
  - assert (Hzero : ∀ o w, o ≠ OutOfFuel → pagesFetched w = 0 →
              o ≠ OutOfFuel ∧ (true = true →
                (0 < pagesFetched w → loopExit env w) ∧
                earlierPagesNotDone env w)).
    { intros o w Ho Hm. split; [exact Ho|]. intros _.
      unfold earlierPagesNotDone. rewrite Hm. split; intros; lia. }
    destruct (runList_paged_cases op fuel env h quals n Hp)
      as [(e & _ & ->)|[(p & ->)|[(p & ->)|
           (name & c & args & _ & _ & ->)]]];
      try (apply Hzero; [discriminate | reflexivity]).
    pose proof (triple_call _ _ _ _ (readyWorld quals n)
                  (pagedFrom_exits (shapeOf op name) env N HN fuel c args
                     Hfuel) eq_refl) as (Ho & Hexit & Hearly).
    auto.
  - split; [|discriminate].
    destruct op; try discriminate Hp; simpl runList.
    + apply (triple_call (fun _ => True) _ (fun _ _ => False)
               (fun o _ => o ≠ OutOfFuel)).
      * apply listNetworkWatchers_returns.
      * exact I.
    + unfold call, listSubscriptions, bind, GetNewSession, ApplyRetryRules,
        client_Get, StreamListItem, emit, ret. simpl.
      destruct (session env) as [e|ses]; simpl; [discriminate|].
      destruct (getResp env) as [e|obj]; discriminate.
    + unfold call, getSecurityCenterDetails, bind, GetNewSession,
        StreamListItem, emit, ret. simpl.
      destruct (session env) as [e|ses]; discriminate.
Qed.

Lemma list_terminates_at_a_loop_exit_witness :
  pagerFinishes twoPages 1 ∧
  let r := call (runList ListIamRoleDefinitions 1 twoPages resA)
             (initWorld ∅ 10) in
  r.1 ≠ OutOfFuel ∧
  (paged ListIamRoleDefinitions = true →
   (0 < pagesFetched r.2 → loopExit twoPages r.2) ∧
   earlierPagesNotDone twoPages r.2).
Proof.
  assert (H : pagerFinishes twoPages 1).
  { eexists. split; reflexivity. }
  split; [exact H|].
  apply (list_terminates_at_a_loop_exit ListIamRoleDefinitions 1 twoPages
           resA ∅ 10 1 H).
  lia.
Defined.

(* ================================================================== *)
(** ** Get: empty quals and objects without ID *)

(** C9. When a key-column qual of the query is the empty string (or
    absent, which reads as the empty string), [getAppConfiguration] and
    [getBackendAddressPool] return [nil, nil] and leave the world as it
    was: no session is created and no API call is issued. *)
Theorem empty_key_qual_returns_before_any_call
    (op : GetOp) (env : Env) (quals : gmap string string) (n : nat)
    (k : string) :
  op = GetAppConfiguration ∨ op = GetBackendAddressPool →
  k ∈ KeyColumns op →
  qual quals k = "" →
  call (runGet op env) (initWorld quals n)
  = (Returned (GoReturn None None), initWorld quals n).
Proof.
  intros [-> | ->] Hk Hq; simpl in Hk;
    repeat (apply elem_of_cons in Hk as [-> | Hk]);
    try (apply elem_of_nil in Hk; contradiction);
    unfold call, runGet, getAppConfiguration, getBackendAddressPool,
      bind, GetStringValue; simpl; rewrite Hq; simpl;
    rewrite ?orb_true_r; reflexivity.
Qed.

Lemma empty_key_qual_returns_before_any_call_witness :
  call (runGet GetBackendAddressPool twoPages)
    (initWorld {[ "name" := "pool"; "resource_group" := "" ]} 3)
  = (Returned (GoReturn None None),
     initWorld {[ "name" := "pool"; "resource_group" := "" ]} 3).
Proof.
  apply (empty_key_qual_returns_before_any_call GetBackendAddressPool
           twoPages _ 3 "resource_group").
  - right. reflexivity.
  - simpl. apply elem_of_cons. right. apply elem_of_cons. right.
    apply elem_of_cons. left. reflexivity.
  - reflexivity.
Defined.

(** C8. When the provider answers the Get call of [getNetworkWatcher],
    [getAppConfiguration] or [getBackendAddressPool] successfully with an
    object whose ID is nil, the function returns [nil, nil]: neither an
    item nor an error, and nothing reaches the row sink. *)
Theorem nil_ID_gives_empty_result
    (op : GetOp) (env : Env) (ses : Session) (obj : Resource)
    (quals : gmap string string) (n : nat) :
  op = GetNetworkWatcher ∨ op = GetAppConfiguration
    ∨ op = GetBackendAddressPool →
  session env = inr ses →
  getResp env = inr obj →
  ID obj = None →
  let r := call (runGet op env) (initWorld quals n) in
  r.1 = Returned (GoReturn None None) ∧ rows r.2 = [].
Proof.
  intros [-> | [-> | ->]] Hses Hget Hid r; subst r;
    unfold call, runGet, getNetworkWatcher, getAppConfiguration,
      getBackendAddressPool, bind, GetStringValue, GetNewSession,
      ApplyRetryRules, client_Get, emit, ret; simpl;
    repeat match goal with
           | |- context [bool_decide ?P] => destruct (bool_decide P); simpl
           end;
    rewrite ?Hses; simpl; rewrite ?Hget; simpl; rewrite ?Hid; simpl;
    split; reflexivity.
Qed.

Lemma nil_ID_gives_empty_result_witness :
  let r := call (runGet GetNetworkWatcher emptyObject)
             (initWorld sampleQuals 3) in
  r.1 = Returned (GoReturn None None) ∧ rows r.2 = [].
Proof.
  apply (nil_ID_gives_empty_result GetNetworkWatcher emptyObject
           {| SubscriptionID := "sub" |} {| ID := None; Name := None |}
           sampleQuals 3).
  - left. reflexivity.
  - reflexivity.
  - reflexivity.
  - reflexivity.
Defined.

(* ================================================================== *)
(** ** Splitting a resource ID *)

(** A string with [k] separators splits into [k + 1] segments. *)
Lemma strings_Split_length s sep :
  length (strings_Split s sep) = S (countChar sep s).
Proof.
  induction s as [|a s IH]; simpl; [reflexivity|].
  destruct (Ascii.eqb a sep); simpl; [rewrite IH; reflexivity|].
  destruct (strings_Split s sep) as [|seg segs]; simpl in *;
    [discriminate IH | exact IH].
Qed.

Lemma pagedFrom_no_panic sh fuel env c args :
  triple (fun _ => True) (pagedFrom sh fuel env c args)
    (fun _ _ => False) (fun o _ => ∀ p, o ≠ Panicked p).
Proof.
  assert (Hrange : ∀ vs,
            triple (fun _ => True) (forRange vs (streamItem sh env))
              (fun _ _ => True) (fun o _ => ∀ p, o ≠ Panicked p)).
  { intros vs. eapply triple_weaken.
    - apply (forRange_exits sh env (fun _ => True)). auto.
    - auto.
    - auto.
    - intros o w (-> & _) p. discriminate. }
  unfold pagedFrom.
  eapply triple_bind with (R := fun _ _ => True).
  { intros w _. unfold client_List, bind, emit. simpl.
    destruct (pages env 0); exact I. }
  intros [e|r].
  - unfold errReturn. destruct (listErrInItem sh); apply triple_returnGo;
      intros; discriminate.
  - eapply triple_bind with (R := fun _ _ => True); [apply Hrange|].
    intros ?. eapply triple_bind with (R := fun _ _ => True).
    + apply (triple_forNotDone (fun _ _ _ => True)).
      * intros f r' _. unfold nextPage.
        eapply triple_bind with (R := fun _ _ => True);
          [intros w _; exact I|].
        intros ?. eapply triple_bind with (R := fun _ _ => True).
        { intros w _. unfold NextWithContext, bind, emit. simpl.
          destruct (pages env (S (pos r'))); exact I. }
        intros [e|r''].
        -- unfold errReturn. destruct (nextErrInItem sh);
             apply triple_returnGo; intros; discriminate.
        -- eapply triple_bind with (R := fun _ _ => True); [apply Hrange|].
           intros ?. apply triple_ret. auto.
      * intros; discriminate.
      * auto.
    + intros ?. apply triple_returnGo. intros; discriminate.
Qed.

Lemma list_with_parent_no_index_panic op fuel env item id w :
  op = ListBackendAddressPools ∨ op = ListNetworkWatcherFlowLogs →
  ID item = Some id →
  4 < length (strings_Split id slash) →
  ∀ i len, (call (runList op fuel env item) w).1
           ≠ Panicked (IndexOutOfRange i len).
Proof.
  intros Hop Hid Hlen i len.
  destruct (lookup_lt_is_Some_2 _ _ Hlen) as [seg Hseg].
  assert (Hgo : ∀ name c args w1,
            (call (pagedFrom (shapeOf op name) fuel env c args) w1).1
            ≠ Panicked (IndexOutOfRange i len)).
  { intros name c args w1.
    apply (triple_call (fun _ => True) _ (fun _ _ => False)
             (fun o _ => ∀ p, o ≠ Panicked p));
      [apply pagedFrom_no_panic | exact I]. }
  destruct Hop as [-> | ->]; simpl runList;
    [rewrite listBackendAddressPools_shape
    |rewrite listNetworkWatcherFlowLogs_shape];
    unfold call, withSession, bind, GetNewSession, emit, ret, index; simpl;
    (destruct (session env) as [e|ses]; simpl; [discriminate|]);
    rewrite Hid; simpl; rewrite Hseg; simpl;
    (destruct (Name item) as [name|]; simpl; [|discriminate]).
  - apply (Hgo name {| retryRules := true |} [seg; name]).
  - apply (Hgo name {| retryRules := true |} [seg; name]).
Qed.

(** C10 as stated fails: as many segments as the index used are one too
    few. The ID [/subscriptions/sub/resourceGroups] has four segments, and
    [listBackendAddressPools], which takes segment 4, panics on it with
    index 4 out of range for length 4. *)
Lemma four_segments_do_not_reach_segment_four :
  segmentIndex InListBackendAddressPools
    ≤ segments "/subscriptions/sub/resourceGroups" ∧
  ¬ indexedInBounds InListBackendAddressPools 1 twoPages truncatedParent
      (initWorld ∅ 5).
Proof.
  split; [vm_compute; lia|].
  intros H. apply (H 4 4). vm_compute. reflexivity.
Qed.

(** C10, amended. Where a resource ID is split on the slash and a fixed
    segment is taken (segment 4 in [listBackendAddressPools] and
    [listNetworkWatcherFlowLogs], segment 8 in
    [extractLoadBalancerNameFromBackendAddressPoolID]), an ID with more
    segments than the index used - at least five, respectively nine - is
    indexed in bounds: the function does not panic with an index out of
    range, whatever the provider answers, and the transform returns the
    segment at index 8 with a nil error. *)
Theorem segment_indexing_in_bounds
    (u : SegmentUse) (fuel : nat) (env : Env) (item : Resource)
    (id : string) (quals : gmap string string) (n : nat) :
  ID item = Some id →
  S (segmentIndex u) ≤ segments id →
  indexedInBounds u fuel env item (initWorld quals n) ∧
  (u = InExtractLoadBalancerName →
   ∃ seg, strings_Split id slash !! 8 = Some seg ∧
          (call (runSegmentUse u fuel env item) (initWorld quals n)).1
          = Returned (GoReturn (Some (VString seg)) None)).
Proof.
  intros Hid Hlen. unfold segments in Hlen.
  destruct (lookup_lt_is_Some_2 (strings_Split id slash) (segmentIndex u))
    as [seg Hseg]; [lia|].
  unfold indexedInBounds.
  destruct u; simpl runSegmentUse; simpl in Hlen, Hseg.
  - split; [|discriminate].
    apply (list_with_parent_no_index_panic ListBackendAddressPools
             fuel env item id); auto.
  - split; [|discriminate].
    apply (list_with_parent_no_index_panic ListNetworkWatcherFlowLogs
             fuel env item id); auto.
  - unfold call, extractLoadBalancerNameFromBackendAddressPoolID, bind,
      index. rewrite Hid. simpl. rewrite Hseg. simpl.
    split; [discriminate|]. intros _. exists seg. split; reflexivity.
Qed.

Lemma segment_indexing_in_bounds_witness :
  indexedInBounds InExtractLoadBalancerName 0 twoPages resA
    (initWorld ∅ 1) ∧
  (InExtractLoadBalancerName = InExtractLoadBalancerName →
   ∃ seg,
     strings_Split
       "/subscriptions/sub/resourceGroups/rg/providers/Microsoft.Network/loadBalancers/lb/backendAddressPools/a"
       slash !! 8 = Some seg ∧
     (call (runSegmentUse InExtractLoadBalancerName 0 twoPages resA)
        (initWorld ∅ 1)).1
     = Returned (GoReturn (Some (VString seg)) None)).
Proof.
  apply (segment_indexing_in_bounds InExtractLoadBalancerName 0 twoPages
           resA _ ∅ 1).
  - reflexivity.
  - vm_compute. lia.
Defined.

(* ================================================================== *)
(** ** The row budget, where it is checked *)

Section Budget.
Variable sh : Shape.
Variable env : Env.
Variable n0 : nat.
Hypothesis Hchecks : checks sh = true.

(** While the function goes on, at least one row of the budget is open
    and every row streamed is accounted for. *)
Let open (w : World) : Prop :=
  length (rows w) + rowsRemaining w = n0 ∧ 1 ≤ rowsRemaining w.

Let within (w : World) : Prop := length (rows w) ≤ n0.

Lemma open_within w : open w → within w.
Proof. unfold open, within. lia. Qed.

Lemma streamItem_budget v :
  triple open (streamItem sh env v) (fun _ => open) (fun _ => within).
Proof.
  intros w [Hsum Hpos].
  unfold streamItem, bind, StreamListItem, RowsRemaining.
  rewrite Hchecks. simpl.
  match goal with
  | |- context [Nat.eqb ?x 0] => destruct (Nat.eqb x 0) eqn:Hz
  end; simpl.
  - unfold within. simpl. rewrite length_app. simpl. lia.
  - apply Nat.eqb_neq in Hz. unfold open. simpl.
    rewrite length_app. simpl.
    destruct (ctxCancelled env _); [contradiction Hz; reflexivity | lia].
Qed.

Lemma forRange_budget vs :
  triple open (forRange vs (streamItem sh env))
    (fun _ => open) (fun _ => within).
Proof.
  apply (triple_forRange (fun _ => open)). intros. apply streamItem_budget.
Qed.

Lemma pagedFrom_budget fuel c args :
  triple open (pagedFrom sh fuel env c args)
    (fun _ _ => False) (fun _ => within).
Proof.
  unfold pagedFrom.
  eapply triple_bind with (R := fun _ => open).
  { intros w Hw. unfold client_List, bind, emit. simpl.
    destruct (pages env 0); exact Hw. }
  intros [e|r].
  - unfold errReturn. destruct (listErrInItem sh); apply triple_returnGo;
      intros w Hw; apply open_within, Hw.
  - eapply triple_bind with (R := fun _ => open); [apply forRange_budget|].
    intros ?. eapply triple_bind with (R := fun _ => open).
    + apply (triple_forNotDone (fun _ _ => open)).
      * intros f r' _. unfold nextPage.
        eapply triple_bind with (R := fun _ => open);
          [intros w Hw; exact Hw|].
        intros ?. eapply triple_bind with (R := fun _ => open).
        { intros w Hw. unfold NextWithContext, bind, emit. simpl.
          destruct (pages env (S (pos r'))); exact Hw. }
        intros [e|r''].
        -- unfold errReturn. destruct (nextErrInItem sh);
             apply triple_returnGo; intros w Hw; apply open_within, Hw.
        -- eapply triple_bind with (R := fun _ => open);
             [apply forRange_budget|].
           intros ?. apply triple_ret. auto.
      * intros r' w _ Hw. apply open_within, Hw.
      * auto.
    + intros ?. apply triple_returnGo. intros w Hw. apply open_within, Hw.
Qed.
End Budget.

Lemma listNetworkWatchers_budget env n0 :
  triple (fun w => length (rows w) + rowsRemaining w = n0 ∧
                   1 ≤ rowsRemaining w)
    (listNetworkWatchers env)
    (fun _ _ => False) (fun _ w => length (rows w) ≤ n0).
Proof.
  set (open := fun w => length (rows w) + rowsRemaining w = n0 ∧
                        1 ≤ rowsRemaining w).
  assert (Hin : ∀ w, open w → length (rows w) ≤ n0).
  { intros w [? ?]. lia. }
  unfold listNetworkWatchers.
  eapply triple_bind with (R := fun _ => open); [intros w Hw; exact Hw|].
  intros [e|ses]; [apply triple_returnGo; auto|].
  eapply triple_bind with (R := fun _ => open); [intros w Hw; exact Hw|].
  intros c. eapply triple_bind with (R := fun _ => open).
  { intros w Hw. unfold client_ListAll, bind, emit. simpl.
    destruct (listAll env); exact Hw. }
  intros [e|[vs|]]; try (apply triple_returnGo; auto).
  - eapply triple_bind with (R := fun _ => open); [apply triple_ret; auto|].
    intros vs'. eapply triple_bind with (R := fun _ => open).
    + apply (forRange_budget (shapeOf ListNetworkWatchers "") env n0 eq_refl).
    + intros ?. apply triple_returnGo. auto.
  - eapply triple_bind with (R := fun _ => open); [apply triple_raise; auto|].
    intros vs'. eapply triple_bind with (R := fun _ => open).
    + apply (forRange_budget (shapeOf ListNetworkWatchers "") env n0 eq_refl).
    + intros ?. apply triple_returnGo. auto.
Qed.

(** X1. Every list function other than [listAppConfigurations] stays
    within a budget of at least one row, whatever the provider answers:
    the paged ones and [listNetworkWatchers] consult [RowsRemaining] after
    every row, the remaining two stream a single row. *)
Lemma rows_within_budget_where_checked op fuel env h quals n :
  op ≠ ListAppConfigurations →
  1 ≤ n →
  length (rows (call (runList op fuel env h) (initWorld quals n)).2) ≤ n.
Proof.
  intros Hchk Hn.
  destruct (paged op) eqn:Hp.
  - destruct (runList_paged_cases op fuel env h quals n Hp)
      as [(e & _ & ->)|[(p & ->)|[(p & ->)|
           (name & c & args & _ & _ & ->)]]];
      try (simpl; lia).
    assert (Hsh : checks (shapeOf op name) = true).
    { destruct op; try reflexivity. congruence. }
    apply (triple_call _ _ _ _ (readyWorld quals n)
             (pagedFrom_budget (shapeOf op name) env n Hsh fuel c args)).
    simpl. lia.
  - destruct op; try discriminate Hp; simpl runList.
    + apply (triple_call _ _ _ _ (initWorld quals n)
               (listNetworkWatchers_budget env n)).
      simpl. lia.
    + unfold call, listSubscriptions, bind, GetNewSession, ApplyRetryRules,
        client_Get, StreamListItem, emit, ret. simpl.
      destruct (session env) as [e|ses]; simpl; [lia|].
      destruct (getResp env) as [e|obj]; simpl; lia.
    + unfold call, getSecurityCenterDetails, bind, GetNewSession,
        StreamListItem, emit, ret. simpl.
      destruct (session env) as [e|ses]; simpl; lia.
Qed.

(** C1 at [listAppConfigurations]: with a budget of one row and a provider
    that has [a; b] on the first page and [c] on the second, the function
    streams all three rows and fetches the second page; [RowsRemaining] is
    never consulted. *)
Theorem listAppConfigurations_ignores_the_budget :
  let r := call (runList ListAppConfigurations 2 twoPages resA)
             (initWorld ∅ 1) in
  r.1 = Returned (GoReturn None None) ∧
  rows r.2 = [VResource resA; VResource resB; VResource resC] ∧
  history r.2 =
    [EvGetNewSession; EvApplyRetryRules; EvCall OpList true [""];
     EvStreamListItem (VResource resA); EvStreamListItem (VResource resB);
     EvWaitForListRateLimit; EvCall OpNext true [];
     EvStreamListItem (VResource resC)].
Proof. vm_compute. repeat split. Qed.

(** The same input through [listIamRoleDefinitions]: one row, one check,
    and no second page. *)
Example listIamRoleDefinitions_stops_at_the_budget :
  let r := call (runList ListIamRoleDefinitions 2 twoPages resA)
             (initWorld ∅ 1) in
  r.1 = Returned (GoReturn None None) ∧
  rows r.2 = [VResource resA] ∧
  history r.2 =
    [EvGetNewSession; EvApplyRetryRules;
     EvCall OpList true ["/subscriptions/sub"; ""];
     EvStreamListItem (VResource resA); EvRowsRemaining].
Proof. vm_compute. repeat split. Qed.

(* ================================================================== *)
(** ** Page-fetch errors *)

(** C2 at [listPolicyAssignments] and
    [listSecurityCenterAutoProvisioning]: an error of the [List] call (for
    the latter, also of [NextWithContext]) comes back in the item position
    with a nil error, so the caller sees no error. *)
Theorem list_error_returned_as_item :
  (let r := call (runList ListPolicyAssignments 2 accessDenied resA)
              (initWorld ∅ 5) in
   r.1 = Returned (GoReturn (Some (VError (Err "AuthorizationFailed"))) None)
   ∧ rows r.2 = [])
  ∧
  (let r := call (runList ListSecurityCenterAutoProvisioning 2
                    secondPageFails resA) (initWorld ∅ 5) in
   r.1 = Returned (GoReturn (Some (VError (Err "InternalServerError"))) None)
   ∧ rows r.2 = [VResource resA]).
Proof. vm_compute. repeat split. Qed.

(** The same inputs through [listIamRoleDefinitions]: the error is the
    error result. *)
Example listIamRoleDefinitions_propagates_fetch_errors :
  (let r := call (runList ListIamRoleDefinitions 2 accessDenied resA)
              (initWorld ∅ 5) in
   r.1 = Returned (GoReturn None (Some (Err "AuthorizationFailed")))
   ∧ rows r.2 = [])
  ∧
  (let r := call (runList ListIamRoleDefinitions 2 secondPageFails resA)
              (initWorld ∅ 5) in
   r.1 = Returned (GoReturn None (Some (Err "InternalServerError")))
   ∧ rows r.2 = [VResource resA]).
Proof. vm_compute. repeat split. Qed.

(* ================================================================== *)
(** ** Retry rules *)

Lemma retried_cons e l :
  match e with EvCall _ retry _ => retry = true | _ => True end →
  retried l → retried (e :: l).
Proof. intros He Hl. constructor; assumption. Qed.

Section Retry.
Variable sh : Shape.
Variable env : Env.

Let ok (w : World) : Prop := retried (log w).

Lemma streamItem_retried v :
  triple ok (streamItem sh env v) (fun _ => ok) (fun _ => ok).
Proof.
  intros w Hw. unfold streamItem, bind, StreamListItem, RowsRemaining.
  destruct (checks sh); simpl.
  - destruct (Nat.eqb _ 0); simpl;
      repeat (apply retried_cons; [exact I|]); exact Hw.
  - apply retried_cons; [exact I | exact Hw].
Qed.

Lemma forRange_retried vs :
  triple ok (forRange vs (streamItem sh env)) (fun _ => ok) (fun _ => ok).
Proof.
  apply (triple_forRange (fun _ => ok)). intros. apply streamItem_retried.
Qed.

Lemma pagedFrom_retried fuel c args :
  retryRules c = true →
  triple ok (pagedFrom sh fuel env c args) (fun _ _ => False) (fun _ => ok).
Proof.
  intros Hc. unfold pagedFrom.
  eapply triple_bind with
    (R := fun x w => ok w ∧ match x with
                            | inl _ => True
                            | inr r => retryRules (client r) = true
                            end).
  { intros w Hw. unfold client_List, bind, emit. simpl.
    destruct (pages env 0); simpl; (split; [|auto]);
      apply retried_cons; assumption. }
  intros [e|r].
  - unfold errReturn. destruct (listErrInItem sh); apply triple_returnGo;
      intros w [Hw _]; exact Hw.
  - eapply triple_bind with
      (R := fun _ w => ok w ∧ retryRules (client r) = true).
    { intros w [Hw Hr]. pose proof (forRange_retried (Values r) w Hw) as H.
      destruct (forRange (Values r) (streamItem sh env) w) as [[[]|o] w'];
        auto. }
    intros ?. eapply triple_bind with (R := fun _ => ok).
    + apply (triple_forNotDone
               (fun _ r' w => ok w ∧ retryRules (client r') = true)).
      * intros f r' _. unfold nextPage.
        eapply triple_bind with
          (R := fun _ w => ok w ∧ retryRules (client r') = true).
        { intros w [Hw Hr]. split; [|exact Hr].
          apply retried_cons; [exact I | exact Hw]. }
        intros ?. eapply triple_bind with
          (R := fun x w => ok w ∧ match x with
                                  | inl _ => True
                                  | inr r'' => retryRules (client r'') = true
                                  end).
        { intros w [Hw Hr]. unfold NextWithContext, bind, emit. simpl.
          destruct (pages env (S (pos r'))); simpl; (split; [|auto]);
            apply retried_cons; assumption. }
        intros [e|r''].
        -- unfold errReturn. destruct (nextErrInItem sh);
             apply triple_returnGo; intros w [Hw _]; exact Hw.
        -- eapply triple_bind with
             (R := fun _ w => ok w ∧ retryRules (client r'') = true).
           { intros w [Hw Hr].
             pose proof (forRange_retried (Values r'') w Hw) as H.
             destruct (forRange (Values r'') (streamItem sh env) w)
               as [[[]|o] w']; auto. }
           intros ?. apply triple_ret. auto.
      * intros r' w _ [Hw _]. exact Hw.
      * intros f r' w _ [Hw _]. exact Hw.
    + intros ?. apply triple_returnGo. auto.
Qed.
End Retry.

(** X2. Every API call of the list functions, the first fetch and every
    [NextWithContext], is issued by a client that has the retry rules
    applied. *)
Lemma list_calls_carry_retry_rules op fuel env h quals n :
  retried (log (call (runList op fuel env h) (initWorld quals n)).2).
Proof.
  destruct (paged op) eqn:Hp.
  - destruct (runList_paged_cases op fuel env h quals n Hp)
      as [(e & _ & ->)|[(p & ->)|[(p & ->)|
           (name & c & args & Hc & _ & ->)]]];
      try (simpl; repeat (apply retried_cons; [exact I|]); constructor).
    apply (triple_call _ _ _ _ (readyWorld quals n)
             (pagedFrom_retried (shapeOf op name) env fuel c args Hc)).
    simpl. repeat (apply retried_cons; [exact I|]). constructor.
  - destruct op; try discriminate Hp; simpl runList;
      [|unfold call, listSubscriptions, bind, GetNewSession, ApplyRetryRules,
          client_Get, StreamListItem, emit, ret; simpl;
        destruct (session env) as [e|ses]; simpl;
        try (destruct (getResp env) as [e|obj]; simpl);
        repeat (apply retried_cons; [try exact I; reflexivity|]); constructor
       |unfold call, getSecurityCenterDetails, bind, GetNewSession,
          StreamListItem, emit, ret; simpl;
        destruct (session env) as [e|ses]; simpl;
        repeat (apply retried_cons; [exact I|]); constructor].
    unfold call, listNetworkWatchers, bind, GetNewSession, ApplyRetryRules,
      client_ListAll, emit, ret. simpl.
    destruct (session env) as [e|ses]; simpl;
      [repeat (apply retried_cons; [exact I|]); constructor|].
    assert (H0 : retried [EvCall OpListAll true []; EvApplyRetryRules;
                          EvGetNewSession]).
    { repeat (apply retried_cons; [try exact I; reflexivity|]). constructor. }
    destruct (listAll env) as [e|[vs|]]; simpl; try exact H0.
    match goal with
    | |- context [forRange vs ?body ?w] =>
        pose proof (forRange_retried (shapeOf ListNetworkWatchers "") env vs
                      w H0) as H;
        change (forRange vs body w)
          with (forRange vs (streamItem (shapeOf ListNetworkWatchers "") env)
                  w)
    end.
    destruct (forRange vs _ _) as [[[]|o] w']; exact H.
Qed.

(** X3. So is every API call of the Get functions, except the one of
    [getSecurityCenterAutoProvisioning]. *)
Lemma get_calls_carry_retry_rules op env quals n :
  op ≠ GetSecurityCenterAutoProvisioning →
  retried (log (call (runGet op env) (initWorld quals n)).2).
Proof.
  intros Hop.
  destruct op; try congruence;
    unfold call, runGet, getAppConfiguration, getPolicyAssignment,
      getIamRoleDefinition, getBackendAddressPool, getNetworkWatcher,
      getNetworkWatcherFlowLog, bind, GetStringValue, GetNewSession,
      ApplyRetryRules, client_Get, emit, ret; simpl;
    repeat match goal with
           | |- context [bool_decide ?P] => destruct (bool_decide P); simpl
           end;
    try (destruct (session env) as [e|ses]; simpl);
    try (destruct (getResp env) as [e|obj]; simpl);
    try (destruct (ID obj); simpl);
    repeat (apply retried_cons; [try exact I; reflexivity|]); constructor.
Qed.

(** C3 at [getSecurityCenterAutoProvisioning]: the Get call goes out on a
    client to which [ApplyRetryRules] was never applied. *)
Theorem getSecurityCenterAutoProvisioning_calls_without_retry_rules :
  let r := call (runGet GetSecurityCenterAutoProvisioning twoPages)
             (initWorld sampleQuals 1) in
  history r.2 = [EvGetNewSession; EvCall OpGet false ["default"]]
  ∧ ¬ retried (log r.2).
Proof.
  split; [vm_compute; reflexivity|].
  intros H. vm_compute in H. inversion H as [|? ? Hcall _]. discriminate Hcall.
Qed.

(** The Get of the sibling table, on the same input. *)
Example getIamRoleDefinition_applies_retry_rules :
  let r := call (runGet GetIamRoleDefinition twoPages)
             (initWorld sampleQuals 1) in
  history r.2 = [EvGetNewSession; EvApplyRetryRules;
                 EvCall OpGet true ["/subscriptions/sub"; "default"]].
Proof. vm_compute. reflexivity. Qed.

(* ================================================================== *)
(** ** Get errors *)

(** C4 at [getSecurityCenterAutoProvisioning]: a provider error whose code
    no ignore-list contains (the table has none) is returned in the item
    position with a nil error; the host receives it as a row. *)
Theorem getSecurityCenterAutoProvisioning_returns_error_as_item :
  let r := call (runGet GetSecurityCenterAutoProvisioning accessDenied)
             (initWorld sampleQuals 1) in
  r.1 = Returned (GoReturn (Some (VError (Err "AuthorizationFailed"))) None)
  ∧ hostGet GetSecurityCenterAutoProvisioning accessDenied
      (initWorld sampleQuals 1)
    = Row (VError (Err "AuthorizationFailed")).
Proof. vm_compute. split; reflexivity. Qed.

(** The other Get functions that hand a provider error on as their error
    result: the host drops it when the table's ignore-list has its code
    and fails the query otherwise. *)
Lemma get_error_ignored_or_propagated op env ses e quals n :
  op ≠ GetSecurityCenterAutoProvisioning →
  op ≠ GetPolicyAssignment →
  (∀ k, k ∈ KeyColumns op → qual quals k ≠ "") →
  session env = inr ses →
  getResp env = inl e →
  (call (runGet op env) (initWorld quals n)).1
    = Returned (GoReturn None (Some e))
  ∧ ∃ ShouldIgnoreErrorFunc,
      IgnoreConfig op = Some ShouldIgnoreErrorFunc ∧
      hostGet op env (initWorld quals n)
      = if ShouldIgnoreErrorFunc e then NoRow else Failure e.
Proof.
  intros Hop1 Hop2 Hk Hses Hget.
  assert (Hret : (call (runGet op env) (initWorld quals n)).1
                 = Returned (GoReturn None (Some e))).
  { destruct op; try congruence;
      unfold call, runGet, getAppConfiguration, getIamRoleDefinition,
        getBackendAddressPool, getNetworkWatcher, getNetworkWatcherFlowLog,
        bind, GetStringValue, GetNewSession, ApplyRetryRules, client_Get,
        emit, ret; simpl;
      repeat match goal with
             | |- context [bool_decide (qual quals ?k = "")] =>
                 rewrite (bool_decide_eq_false_2 (qual quals k = ""))
                   by (apply Hk; simpl; set_solver)
             end; simpl;
      rewrite Hses; simpl; rewrite Hget; reflexivity. }
  split; [exact Hret|].
  unfold hostGet. rewrite Hret.
  destruct op; try congruence; eexists; split; reflexivity.
Qed.

Example getIamRoleDefinition_propagates_get_errors :
  let r := call (runGet GetIamRoleDefinition accessDenied)
             (initWorld sampleQuals 1) in
  r.1 = Returned (GoReturn None (Some (Err "AuthorizationFailed")))
  ∧ hostGet GetIamRoleDefinition accessDenied (initWorld sampleQuals 1)
    = Failure (Err "AuthorizationFailed").
Proof. vm_compute. split; reflexivity. Qed.

(** A short ID makes the transform panic. *)
Example short_ID_panics :
  (call (extractLoadBalancerNameFromBackendAddressPoolID
           {| ID := Some "/subscriptions/sub"; Name := None |})
     (initWorld ∅ 1)).1
  = Panicked (IndexOutOfRange 8 3).
Proof. vm_compute. reflexivity. Qed.

(* ================================================================== *)
(** ** A complete run *)

(** [listIamRoleDefinitions] with room for ten rows against the two-page
    provider: both pages are streamed, with a wait before the second
    fetch, and the function returns [nil, nil]. *)
Example listIamRoleDefinitions_two_pages :
  let r := call (runList ListIamRoleDefinitions 5 twoPages resA)
             (initWorld ∅ 10) in
  r.1 = Returned (GoReturn None None) ∧
  rows r.2 = [VResource resA; VResource resB; VResource resC] ∧
  rowsRemaining r.2 = 7 ∧
  history r.2 =
    [EvGetNewSession; EvApplyRetryRules;
     EvCall OpList true ["/subscriptions/sub"; ""];
     EvStreamListItem (VResource resA); EvRowsRemaining;
     EvStreamListItem (VResource resB); EvRowsRemaining;
     EvWaitForListRateLimit; EvCall OpNext true [];
     EvStreamListItem (VResource resC); EvRowsRemaining].
Proof. vm_compute. repeat split. Qed.

(** [listNetworkWatcherFlowLogs] takes the resource group from segment 4
    of the watcher's ID and streams [flowLogInfo] values. *)
Example listNetworkWatcherFlowLogs_run :
  let watcher := {| ID := Some "/subscriptions/sub/resourceGroups/NetworkWatcherRG/providers/Microsoft.Network/networkWatchers/nw";
                    Name := Some "nw" |} in
  let r := call (runList ListNetworkWatcherFlowLogs 5 twoPages watcher)
             (initWorld ∅ 2) in
  r.1 = Returned (GoReturn None None) ∧
  rows r.2 = [VFlowLogInfo resA "nw"; VFlowLogInfo resB "nw"] ∧
  history r.2 =
    [EvGetNewSession; EvApplyRetryRules;
     EvCall OpList true ["NetworkWatcherRG"; "nw"];
     EvStreamListItem (VFlowLogInfo resA "nw"); EvRowsRemaining;
     EvStreamListItem (VFlowLogInfo resB "nw"); EvRowsRemaining].
Proof. vm_compute. repeat split. Qed.

(* ================================================================== *)
(** * Further properties of the handlers *)

(** ** Session failures *)

(** X4. When the session cannot be created, every list function returns
    [nil] with the session error and has done nothing else: no retry
    rules, no API call, no row. *)
Theorem list_session_failure
    (op : ListOp) (fuel : nat) (env : Env) (h : Resource)
    (quals : gmap string string) (n : nat) (e : error) :
  session env = inl e →
  call (runList op fuel env h) (initWorld quals n)
  = (Returned (GoReturn None (Some e)),
     logged EvGetNewSession (initWorld quals n)).
Proof.
  intros He.
  destruct op; simpl runList;
    unfold call, listAppConfigurations, listPolicyAssignments,
      listIamRoleDefinitions, listBackendAddressPools,
      listSecurityCenterAutoProvisioning, listNetworkWatcherFlowLogs,
      listNetworkWatchers, listSubscriptions, getSecurityCenterDetails,
      bind, GetNewSession, emit, ret; simpl; rewrite He; reflexivity.
Qed.

Lemma list_session_failure_witness :
  call (runList ListBackendAddressPools 3 noSession resA) (initWorld ∅ 5)
  = (Returned (GoReturn None (Some (Err "ExpiredAuthenticationToken"))),
     logged EvGetNewSession (initWorld ∅ 5)).
Proof.
  apply (list_session_failure ListBackendAddressPools 3 noSession resA ∅ 5).
  reflexivity.
Defined.

(** X5. When the session cannot be created, every Get function that got
    past its qual check returns [nil] with the session error and has
    issued no API call. *)
Theorem get_session_failure
    (op : GetOp) (env : Env) (quals : gmap string string) (n : nat)
    (e : error) :
  qualsReady op quals →
  session env = inl e →
  call (runGet op env) (initWorld quals n)
  = (Returned (GoReturn None (Some e)),
     logged EvGetNewSession (initWorld quals n)).
Proof.
  intros Hq He.
  destruct op;
    unfold call, runGet, getAppConfiguration, getPolicyAssignment,
      getIamRoleDefinition, getBackendAddressPool,
      getSecurityCenterAutoProvisioning, getNetworkWatcher,
      getNetworkWatcherFlowLog, bind, GetStringValue, GetNewSession,
      emit, ret; simpl;
    repeat match goal with
           | |- context [bool_decide (qual quals ?k = "")] =>
               rewrite (bool_decide_eq_false_2 (qual quals k = ""))
                 by (apply Hq; [reflexivity | simpl; set_solver])
           end; simpl;
    rewrite He; reflexivity.
Qed.

Lemma get_session_failure_witness :
  call (runGet GetAppConfiguration noSession) (initWorld sampleQuals 5)
  = (Returned (GoReturn None (Some (Err "ExpiredAuthenticationToken"))),
     logged EvGetNewSession (initWorld sampleQuals 5)).
Proof.
  apply (get_session_failure GetAppConfiguration noSession sampleQuals 5).
  - intros _ k Hk. simpl in Hk.
    repeat (apply elem_of_cons in Hk as [-> | Hk]);
      [vm_compute; discriminate | vm_compute; discriminate
      | apply elem_of_nil in Hk; contradiction].
  - reflexivity.
Defined.

(** ** Panics *)

Lemma pagedFrom_call_no_panic sh fuel env c args w p :
  (call (pagedFrom sh fuel env c args) w).1 ≠ Panicked p.
Proof.
  apply (triple_call (fun _ => True) _ (fun _ _ => False)
           (fun o _ => ∀ p, o ≠ Panicked p));
    [apply pagedFrom_no_panic | exact I].
Qed.

(** X6. The list functions that do not read a parent item, other than
    [listNetworkWatchers], never panic, whatever the session provider and
    the API answer. *)
Theorem list_without_parent_never_panics
    (op : ListOp) (fuel : nat) (env : Env) (h : Resource)
    (quals : gmap string string) (n : nat) (p : panic) :
  usesParent op = false →
  op ≠ ListNetworkWatchers →
  (call (runList op fuel env h) (initWorld quals n)).1 ≠ Panicked p.
Proof.
  intros Hpar Hnw.
  destruct op; try discriminate Hpar; try congruence; simpl runList;
    [ rewrite listAppConfigurations_shape
    | rewrite listPolicyAssignments_shape
    | rewrite listIamRoleDefinitions_shape
    | rewrite listSecurityCenterAutoProvisioning_shape
    | unfold listSubscriptions
    | unfold getSecurityCenterDetails ];
    unfold call, withSession, bind, GetNewSession, ApplyRetryRules,
      client_Get, StreamListItem, emit, ret; simpl;
    destruct (session env) as [e|ses]; simpl; try discriminate.
  1-4: match goal with
       | |- context [pagedFrom ?sh ?f ?en ?c ?a ?w] =>
           apply (pagedFrom_call_no_panic sh f en c a w p)
       end.
  - destruct (getResp env); discriminate.
Qed.

Lemma list_without_parent_never_panics_witness :
  (call (runList ListPolicyAssignments 3 secondPageFails resA)
     (initWorld ∅ 5)).1 ≠ Panicked NilDereference.
Proof.
  apply (list_without_parent_never_panics ListPolicyAssignments 3
           secondPageFails resA ∅ 5 NilDereference).
  - reflexivity.
  - discriminate.
Defined.

(** X7. No Get function panics, whatever the quals, the session provider
    and the API answer: a nil ID in the answer is tested, never
    dereferenced. *)
Theorem get_never_panics
    (op : GetOp) (env : Env) (quals : gmap string string) (n : nat)
    (p : panic) :
  (call (runGet op env) (initWorld quals n)).1 ≠ Panicked p.
Proof.
  destruct op;
    unfold call, runGet, getAppConfiguration, getPolicyAssignment,
      getIamRoleDefinition, getBackendAddressPool,
      getSecurityCenterAutoProvisioning, getNetworkWatcher,
      getNetworkWatcherFlowLog, bind, GetStringValue, GetNewSession,
      ApplyRetryRules, client_Get, emit, ret; simpl;
    repeat match goal with
           | |- context [bool_decide ?P] => destruct (bool_decide P); simpl
           end;
    try discriminate;
    destruct (session env) as [e|ses]; simpl; try discriminate;
    destruct (getResp env) as [e|obj]; simpl; try discriminate;
    destruct (ID obj); discriminate.
Qed.

(** X8. With a session, [listNetworkWatchers] panics exactly when
    [ListAll] succeeds with a result whose [Value] is nil: the pointer is
    dereferenced without a test. The panic is a nil dereference and no
    row has been streamed. *)
Theorem listNetworkWatchers_panics_on_nil_value
    (env : Env) (ses : Session) (quals : gmap string string) (n : nat) :
  session env = inr ses →
  let r := call (listNetworkWatchers env) (initWorld quals n) in
  ((∃ p, r.1 = Panicked p) ↔ listAll env = inr None) ∧
  (listAll env = inr None → r.1 = Panicked NilDereference ∧ rows r.2 = []).
Proof.
  intros Hses r. subst r.
  unfold call, listNetworkWatchers, bind, GetNewSession, ApplyRetryRules,
    client_ListAll, emit, ret. simpl. rewrite Hses. simpl.
  destruct (listAll env) as [e|[vs|]]; simpl.
  - split; [split|]; [intros [p Hp]; discriminate Hp | discriminate
                     | discriminate].
  - match goal with
    | |- context [forRange vs ?body ?w] =>
        pose proof (forRange_exits (shapeOf ListNetworkWatchers "") env
                      (fun _ => True) vs (fun _ _ _ _ => I) w I) as H;
        change (forRange vs body w)
          with (forRange vs (streamItem (shapeOf ListNetworkWatchers "") env)
                  w) in *
    end.
    destruct (forRange vs _ _) as [[[]|o] w']; simpl.
    + split; [split|]; [intros [p Hp]; discriminate Hp | discriminate
                       | discriminate].
    + destruct H as (-> & _).
      split; [split|]; [intros [p Hp]; discriminate Hp | discriminate
                       | discriminate].
  - split; [split|]; eauto.
Qed.

Lemma listNetworkWatchers_panics_on_nil_value_witness :
  let r := call (listNetworkWatchers nilValue) (initWorld ∅ 5) in
  ((∃ p, r.1 = Panicked p) ↔ listAll nilValue = inr None) ∧
  (listAll nilValue = inr None →
   r.1 = Panicked NilDereference ∧ rows r.2 = []).
Proof.
  apply (listNetworkWatchers_panics_on_nil_value nilValue
           {| SubscriptionID := "sub" |} ∅ 5).
  reflexivity.
Defined.

(** X9. [listBackendAddressPools] and [listNetworkWatcherFlowLogs] panic
    on a parent item they cannot use, and they do so before any API call:
    a nil ID is a nil dereference and an ID without a segment 4 an index
    out of range, both right after the session is created; a nil Name is
    a nil dereference right after the retry rules are applied. *)
Theorem unusable_parent_panics_before_any_call
    (op : ListOp) (fuel : nat) (env : Env) (h : Resource) (ses : Session)
    (quals : gmap string string) (n : nat) :
  usesParent op = true →
  session env = inr ses →
  let r := call (runList op fuel env h) (initWorld quals n) in
  (ID h = None →
   r = (Panicked NilDereference, logged EvGetNewSession (initWorld quals n)))
  ∧ (∀ id, ID h = Some id → length (strings_Split id slash) ≤ 4 →
     r = (Panicked (IndexOutOfRange 4 (length (strings_Split id slash))),
          logged EvGetNewSession (initWorld quals n)))
  ∧ (∀ id, ID h = Some id → 4 < length (strings_Split id slash) →
     Name h = None →
     r = (Panicked NilDereference, readyWorld quals n)).
Proof.
  intros Hpar Hses r. subst r.
  destruct op; try discriminate Hpar; simpl runList;
    unfold call, listBackendAddressPools, listNetworkWatcherFlowLogs, bind,
      GetNewSession, ApplyRetryRules, emit, ret, index; simpl;
    rewrite Hses; simpl.
  all: destruct (ID h) as [id0|]; simpl.
  all: split; [intros Hnil; try discriminate Hnil; reflexivity|].
  all: split; intros id Hid Hlen; try discriminate Hid;
    injection Hid as <-.
  all: try (rewrite (lookup_ge_None_2 _ _ Hlen); reflexivity).
  all: intros ->;
    destruct (lookup_lt_is_Some_2 _ _ Hlen) as [rg ->]; reflexivity.
Qed.

Lemma unusable_parent_panics_before_any_call_witness :
  call (runList ListBackendAddressPools 3 twoPages shortParent)
    (initWorld ∅ 5)
  = (Panicked (IndexOutOfRange 4 3), logged EvGetNewSession (initWorld ∅ 5)).
Proof.
  destruct (unusable_parent_panics_before_any_call ListBackendAddressPools 3
              twoPages shortParent {| SubscriptionID := "sub" |} ∅ 5
              eq_refl eq_refl) as (_ & Hshort & _).
  apply (Hshort "/subscriptions/sub" eq_refl).
  vm_compute. lia.
Defined.

(** ** What the Get functions return *)

Ltac run_get Hq :=
  unfold call, runGet, getAppConfiguration, getPolicyAssignment,
    getIamRoleDefinition, getBackendAddressPool,
    getSecurityCenterAutoProvisioning, getNetworkWatcher,
    getNetworkWatcherFlowLog, bind, GetStringValue, GetNewSession,
    ApplyRetryRules, client_Get, emit, ret; simpl;
  repeat match goal with
         | |- context [bool_decide (qual ?quals ?k = "")] =>
             rewrite (bool_decide_eq_false_2 (qual quals k = ""))
               by (apply Hq; [reflexivity | simpl; set_solver])
         end; simpl.

(** X10. When the provider answers the Get call with an error, the Get
    function returns it: as the error result ([nil, err]) in
    [getAppConfiguration], [getIamRoleDefinition], [getBackendAddressPool],
    [getNetworkWatcher] and [getNetworkWatcherFlowLog], and as the item
    with a nil error in [getPolicyAssignment] and
    [getSecurityCenterAutoProvisioning]. *)
Theorem get_provider_error
    (op : GetOp) (env : Env) (ses : Session) (e : error)
    (quals : gmap string string) (n : nat) :
  qualsReady op quals →
  session env = inr ses →
  getResp env = inl e →
  (call (runGet op env) (initWorld quals n)).1
  = Returned (if getErrorInItem op
              then GoReturn (Some (VError e)) None
              else GoReturn None (Some e)).
Proof.
  intros Hq Hses Hget.
  destruct op; run_get Hq; rewrite Hses; simpl; rewrite Hget; reflexivity.
Qed.

Lemma get_provider_error_witness :
  (call (runGet GetPolicyAssignment accessDenied) (initWorld sampleQuals 5)).1
  = Returned (GoReturn (Some (VError (Err "AuthorizationFailed"))) None).
Proof.
  apply (get_provider_error GetPolicyAssignment accessDenied
           {| SubscriptionID := "sub" |} (Err "AuthorizationFailed")
           sampleQuals 5).
  - intros Hc. discriminate Hc.
  - reflexivity.
  - reflexivity.
Defined.

(** X11. When the provider answers the Get call with an object, the Get
    function returns that object as the item, with a nil error:
    unchanged, except that [getNetworkWatcherFlowLog] pairs it with the
    [network_watcher_name] qual. The three functions that test the ID do
    so for an object with an ID; the other four do not look at the ID. *)
Theorem get_provider_success
    (op : GetOp) (env : Env) (ses : Session) (obj : Resource)
    (quals : gmap string string) (n : nat) :
  qualsReady op quals →
  session env = inr ses →
  getResp env = inr obj →
  (checksID op = true → ID obj ≠ None) →
  (call (runGet op env) (initWorld quals n)).1
  = Returned (GoReturn (Some (getItem op quals obj)) None).
Proof.
  intros Hq Hses Hget Hid.
  destruct op; run_get Hq; rewrite Hses; simpl; rewrite Hget; simpl;
    try reflexivity;
    destruct (ID obj); try reflexivity;
    exfalso; apply Hid; reflexivity.
Qed.

Lemma get_provider_success_witness :
  (call (runGet GetNetworkWatcherFlowLog emptyObject)
     (initWorld {[ "network_watcher_name" := "nw" ]} 5)).1
  = Returned (GoReturn
                (Some (getItem GetNetworkWatcherFlowLog
                         {[ "network_watcher_name" := "nw" ]}
                         {| ID := None; Name := None |}))
                None).
Proof.
  apply (get_provider_success GetNetworkWatcherFlowLog emptyObject
           {| SubscriptionID := "sub" |} {| ID := None; Name := None |}
           {[ "network_watcher_name" := "nw" ]} 5).
  - intros Hc. discriminate Hc.
  - reflexivity.
  - reflexivity.
  - intros Hc. discriminate Hc.
Defined.

(** ** The first fetch *)

(** With a session and a usable parent item, a paged list function is its
    common tail, started with a client that has the retry rules. *)
Lemma runList_paged_ready op fuel env h ses quals n :
  paged op = true →
  parentReady op h →
  session env = inr ses →
  ∃ name args,
    wrap (shapeOf op name) = wrapOf op h ∧
    call (runList op fuel env h) (initWorld quals n)
    = call (pagedFrom (shapeOf op name) fuel env (Build_Client true) args)
        (readyWorld quals n).
Proof.
  intros Hp Hpar Hses.
  destruct op; try discriminate Hp; simpl runList;
    [ rewrite listAppConfigurations_shape
    | rewrite listPolicyAssignments_shape
    | rewrite listIamRoleDefinitions_shape
    | rewrite listBackendAddressPools_shape
    | rewrite listSecurityCenterAutoProvisioning_shape
    | rewrite listNetworkWatcherFlowLogs_shape ];
    unfold call, withSession, bind, GetNewSession, emit, ret, index; simpl;
    rewrite Hses; simpl.
  1-3,5: eexists "", _; split; reflexivity.
  all: destruct (Hpar eq_refl) as (id & rg & name & Hid & Hrg & Hname);
    rewrite Hid; simpl; rewrite Hrg; simpl; rewrite Hname; simpl;
    exists name; eexists; (split; [|reflexivity]);
    unfold wrapOf; rewrite Hname; reflexivity.
Qed.

(** X12. When the first fetch ([List]) of a paged list function fails,
    the function stops at once: nothing is streamed, no further call is
    made, and the error is returned, as the error result by
    [listAppConfigurations], [listIamRoleDefinitions],
    [listBackendAddressPools] and [listNetworkWatcherFlowLogs], and as the
    item with a nil error by [listPolicyAssignments] and
    [listSecurityCenterAutoProvisioning]. *)
Theorem list_first_fetch_failure
    (op : ListOp) (fuel : nat) (env : Env) (h : Resource) (ses : Session)
    (e : error) (quals : gmap string string) (n : nat) :
  paged op = true →
  parentReady op h →
  session env = inr ses →
  pages env 0 = inl e →
  let r := call (runList op fuel env h) (initWorld quals n) in
  r.1 = Returned (if listErrorInItem op
                  then GoReturn (Some (VError e)) None
                  else GoReturn None (Some e))
  ∧ rows r.2 = []
  ∧ ∃ args, history r.2
            = [EvGetNewSession; EvApplyRetryRules; EvCall OpList true args].
Proof.
  intros Hp Hpar Hses Hfail r. subst r.
  destruct (runList_paged_ready op fuel env h ses quals n Hp Hpar Hses)
    as (name & args & _ & ->).
  unfold call, pagedFrom, bind, client_List, emit, ret. simpl.
  rewrite Hfail. simpl.
  destruct op; try discriminate Hp; simpl;
    (split; [reflexivity|]); (split; [reflexivity|]);
    exists args; reflexivity.
Qed.

Lemma list_first_fetch_failure_witness :
  let r := call (runList ListSecurityCenterAutoProvisioning 3 accessDenied
                   resA) (initWorld ∅ 5) in
  r.1 = Returned (GoReturn (Some (VError (Err "AuthorizationFailed"))) None)
  ∧ rows r.2 = []
  ∧ ∃ args, history r.2
            = [EvGetNewSession; EvApplyRetryRules; EvCall OpList true args].
Proof.
  apply (list_first_fetch_failure ListSecurityCenterAutoProvisioning 3
           accessDenied resA {| SubscriptionID := "sub" |}
           (Err "AuthorizationFailed") ∅ 5).
  - reflexivity.
  - intros Hc. discriminate Hc.
  - reflexivity.
  - reflexivity.
Defined.

(* ================================================================== *)
(** ** What a paged listing streams, exactly *)

Lemma itemsUpTo_prefix env a b :
  a ≤ b → ∃ tl, itemsUpTo env b = itemsUpTo env a ++ tl.
Proof.
  induction 1 as [|b Hle [tl IH]].
  - exists []. rewrite app_nil_r. reflexivity.
  - exists (tl ++ itemsAt env b). rewrite itemsUpTo_S, IH, app_assoc.
    reflexivity.
Qed.

Section Exact.
Variable sh : Shape.
Variable env : Env.
Variable N n0 : nat.
Hypothesis Hload : pagesLoad env N.
Hypothesis Hbudget : checks sh = true → 1 ≤ n0.
Hypothesis Hnever : checks sh = true → cancelAt env = None.
Hypothesis Hedge :
  ∀ pN p', pages env N = inr pN → more pN = true →
           pages env (S N) = inr p' →
           checks sh = true ∧ n0 ≤ length (itemsUpTo env (S N)).

(** The sink holds [done], and the budget (where it is checked) accounts
    for every row and is not used up. *)
Let holding (done : list Resource) (w : World) : Prop :=
  rows w = map (wrap sh) done ∧
  (checks sh = true →
   length (rows w) + rowsRemaining w = n0 ∧ 1 ≤ rowsRemaining w).

Let reached (o : outcome) (w : World) : Prop := listingEnd sh env N n0 o w.

Lemma streamItem_exact prev seen v rest tl :
  itemsUpTo env (S N) = prev ++ (seen ++ v :: rest) ++ tl →
  triple (holding (prev ++ seen)) (streamItem sh env v)
    (fun _ => holding (prev ++ seen ++ [v])) reached.
Proof.
  intros Hall w [Hrows Hacc].
  assert (Hnew : rows w ++ [wrap sh v]
                 = map (wrap sh) (prev ++ seen ++ [v])).
  { rewrite Hrows, !map_app. rewrite <- app_assoc. reflexivity. }
  assert (Hend : checks sh = true → rowsRemaining w = 1 →
            ∀ w', rows w' = rows w ++ [wrap sh v] →
                  reached (Returned (GoReturn None None)) w').
  { intros Hc Hone w' Hw'. destruct (Hacc Hc) as [Hsum Hpos]. left.
    assert (Hlen : length (prev ++ seen ++ [v]) = n0).
    { rewrite !length_app. simpl.
      rewrite Hrows, length_map, length_app in Hsum. lia. }
    assert (Hsplit : itemsUpTo env (S N)
                     = (prev ++ seen ++ [v]) ++ rest ++ tl).
    { rewrite Hall. rewrite <- !app_assoc. simpl. reflexivity. }
    split; [reflexivity|]. split; [exact Hc|]. split.
    - rewrite Hsplit, length_app. lia.
    - rewrite Hw', Hnew. f_equal. rewrite Hsplit.
      rewrite <- Hlen at 1. rewrite take_app_length. reflexivity. }
  unfold streamItem, bind, StreamListItem, RowsRemaining.
  destruct (checks sh) eqn:Hc; simpl.
  - destruct (Hacc eq_refl) as [Hsum Hpos].
    rewrite (ctxCancelled_never env _ (Hnever eq_refl)).
    destruct (Nat.eqb (pred (rowsRemaining w)) 0) eqn:Hz; simpl.
    + apply Nat.eqb_eq in Hz. apply Hend; [reflexivity | lia | reflexivity].
    + apply Nat.eqb_neq in Hz. split; simpl; [exact Hnew|].
      intros _. rewrite length_app. simpl. lia.
  - split; simpl; [exact Hnew|]. intros Hc'. discriminate Hc'.
Qed.

Lemma forRange_exact prev vs tl :
  itemsUpTo env (S N) = prev ++ vs ++ tl →
  triple (holding prev) (forRange vs (streamItem sh env))
    (fun _ => holding (prev ++ vs)) reached.
Proof.
  intros Hall. eapply triple_weaken.
  - apply (triple_forRange (fun seen => holding (prev ++ seen))
             (streamItem sh env) vs reached).
    intros seen v rest Hvs.
    apply (streamItem_exact prev seen v rest tl). rewrite <- Hvs. exact Hall.
  - intros w Hw. rewrite app_nil_r. exact Hw.
  - auto.
  - auto.
Qed.

(** Between two pages: the pager stands on a page up to [N], everything
    up to that page is streamed, and the fuel reaches beyond page [N]. *)
Let standingAt (f : nat) (r : Pager) (w : World) : Prop :=
  pages env (pos r) = inr (page r) ∧ pos r ≤ N ∧ N < pos r + f ∧
  holding (itemsUpTo env (S (pos r))) w.

Lemma holding_all_short w :
  holding (itemsUpTo env (S N)) w →
  checks sh = true → length (itemsUpTo env (S N)) < n0.
Proof.
  intros [Hrows Hacc] Hc. destruct (Hacc Hc) as [Hsum Hpos].
  rewrite Hrows, length_map in Hsum. lia.
Qed.

Lemma page_items_prefix j p :
  j ≤ N → pages env j = inr p →
  ∃ tl, itemsUpTo env (S N) = itemsUpTo env j ++ Value p ++ tl.
Proof.
  intros Hj Hp.
  destruct (itemsUpTo_prefix env (S j) (S N)) as [tl Htl]; [lia|].
  exists tl. rewrite Htl, itemsUpTo_S. unfold itemsAt. rewrite Hp.
  rewrite <- app_assoc. reflexivity.
Qed.

Lemma holding_logged e done w : holding done w → holding done (logged e w).
Proof. intros H. exact H. Qed.

Lemma nextPage_exact f r :
  NotDone r = true →
  triple (standingAt (S f) r) (nextPage sh env r)
    (fun r' => standingAt f r') reached.
Proof.
  intros Hnd. unfold nextPage.
  eapply triple_bind with (R := fun _ => standingAt (S f) r).
  { intros w Hw. exact Hw. }
  intros ?.
  eapply triple_bind with
    (R := fun x w =>
            match x with
            | inl e => pages env (S (pos r)) = inl e ∧ standingAt (S f) r w
            | inr r' =>
                pages env (pos r') = inr (page r') ∧ pos r' = S (pos r) ∧
                pos r' ≤ N ∧ standingAt (S f) r w
            end).
  { intros w Hw. pose proof Hw as (Hp & Hle & Hf & Hhold).
    unfold NextWithContext, bind, emit. simpl.
    destruct (pages env (S (pos r))) as [e|p'] eqn:Hnext; simpl.
    - split; [reflexivity | exact Hw].
    - assert (Hlt : pos r < N).
      { destruct (decide (pos r = N)) as [Heq|Hne]; [|lia].
        exfalso. rewrite Heq in Hp, Hnext, Hhold.
        destruct (Hedge (page r) p' Hp Hnd Hnext) as [Hc Hn].
        pose proof (holding_all_short w Hhold Hc). lia. }
      split; [exact Hnext|]. split; [reflexivity|].
      split; [simpl; lia | exact Hw]. }
  intros [e|r'].
  - intros w (Hfail & Hp & Hle & Hf & Hhold).
    assert (Heq : pos r = N).
    { destruct (decide (pos r = N)) as [Heq|Hne]; [exact Heq|].
      destruct Hload as [Hok _].
      destruct (Hok (S (pos r))) as [p' Hp']; [lia|]. congruence. }
    rewrite Heq in Hp, Hfail, Hhold.
    unfold errReturn, returnGo.
    assert (Hend : reached (Returned (errorReturn (nextErrInItem sh) e)) w).
    { right. split; [exact (proj1 Hhold)|].
      split; [apply (holding_all_short w Hhold)|].
      exists (page r). split; [exact Hp|]. right.
      split; [exact Hnd|]. exists e. split; [exact Hfail | reflexivity]. }
    unfold errorReturn in Hend.
    destruct (nextErrInItem sh); exact Hend.
  - intros w (Hp' & Hpos & Hle' & Hp & Hle & Hf & Hhold). revert w Hhold.
    change (triple (holding (itemsUpTo env (S (pos r))))
              (forRange (Values r') (streamItem sh env) >> ret r')
              (fun r'' => standingAt f r'') reached).
    destruct (page_items_prefix (pos r') (page r') Hle' Hp') as [tl Htl].
    rewrite Hpos in Htl.
    eapply triple_bind with
      (R := fun _ => holding (itemsUpTo env (S (pos r)) ++ Values r')).
    + apply (forRange_exact _ _ tl). exact Htl.
    + intros ?. apply triple_ret. intros w Hw.
      split; [exact Hp'|]. split; [exact Hle'|]. split; [lia|].
      rewrite (itemsUpTo_S env (pos r')). unfold itemsAt. rewrite Hp'.
      rewrite Hpos. exact Hw.
Qed.

Lemma pagedFrom_exact fuel c args :
  S N ≤ fuel →
  triple (fun w => rows w = [] ∧ rowsRemaining w = n0)
    (pagedFrom sh fuel env c args) (fun _ _ => False) reached.
Proof.
  intros Hfuel. unfold pagedFrom.
  destruct Hload as [Hok Hmore].
  destruct (Hok 0) as [p0 Hp0]; [lia|].
  assert (Hstart : ∀ w, rows w = [] ∧ rowsRemaining w = n0 → holding [] w).
  { intros w [Hr Hn]. split; [rewrite Hr; reflexivity|].
    intros Hc. rewrite Hr. simpl. pose proof (Hbudget Hc). lia. }
  eapply triple_bind with
    (R := fun x w => x = inr {| client := c; pos := 0; page := p0 |} ∧
                     holding [] w).
  { intros w Hw. unfold client_List, bind, emit. simpl. rewrite Hp0. simpl.
    split; [reflexivity|]. apply (Hstart w Hw). }
  intros x w [-> Hw]. revert w Hw.
  set (r0 := {| client := c; pos := 0; page := p0 |}).
  match goal with |- ∀ w, _ → match ?m w with _ => _ end =>
    change (triple (holding []) m (fun _ _ => False) reached) end.
  destruct (page_items_prefix 0 p0 (Nat.le_0_l N) Hp0) as [tl Htl].
  eapply triple_bind with (R := fun _ => standingAt fuel r0).
  { eapply triple_weaken.
    - apply (forRange_exact [] (Values r0) tl). exact Htl.
    - auto.
    - intros ? w Hw. split; [exact Hp0|]. split; [simpl; lia|].
      split; [simpl; lia|]. simpl pos.
      rewrite itemsUpTo_S. unfold itemsAt at 1. rewrite Hp0. exact Hw.
    - auto. }
  intros ?.
  eapply triple_bind with
    (R := fun r' w => NotDone r' = false ∧ ∃ f, standingAt f r' w).
  - apply (triple_forNotDone standingAt).
    + intros. apply nextPage_exact. assumption.
    + intros r' w _ (_ & Hle & Hf & _). lia.
    + intros f r' w Hnd Hw. eauto.
  - intros r'. apply triple_returnGo.
    intros w (Hnd & f & Hp & Hle & Hf & Hhold).
    assert (Heq : pos r' = N).
    { destruct (decide (pos r' = N)) as [Heq|Hne]; [exact Heq|].
      assert (Hm : more (page r') = true) by (apply (Hmore (pos r')); [lia|exact Hp]).
      unfold NotDone in Hnd. congruence. }
    rewrite Heq in Hp, Hhold. right.
    split; [exact (proj1 Hhold)|].
    split; [apply (holding_all_short w Hhold)|].
    exists (page r'). split; [exact Hp|]. left. split; [exact Hnd | reflexivity].
Qed.
End Exact.

Lemma shapeOf_checks op name :
  paged op = true → checks (shapeOf op name) = checksRows op.
Proof. destruct op; intros H; try discriminate H; reflexivity. Qed.

Lemma shapeOf_nextErrInItem op name :
  nextErrInItem (shapeOf op name) = nextErrorInItem op.
Proof. destruct op; reflexivity. Qed.

(** Where a paged list function gets to when the pages up to [N] load. *)
Lemma paged_listing_end op fuel env h ses quals n N :
  paged op = true →
  parentReady op h →
  session env = inr ses →
  pagesLoad env N →
  S N ≤ fuel →
  (checksRows op = true → 1 ≤ n) →
  (checksRows op = true → cancelAt env = None) →
  (∀ pN p', pages env N = inr pN → more pN = true →
            pages env (S N) = inr p' →
            checksRows op = true ∧ n ≤ length (itemsUpTo env (S N))) →
  ∃ name,
    wrap (shapeOf op name) = wrapOf op h ∧
    let r := call (runList op fuel env h) (initWorld quals n) in
    listingEnd (shapeOf op name) env N n r.1 r.2.
Proof.
  intros Hp Hpar Hses Hload Hfuel Hn Hnever Hedge.
  destruct (runList_paged_ready op fuel env h ses quals n Hp Hpar Hses)
    as (name & args & Hwrap & ->).
  exists name. split; [exact Hwrap|].
  apply (triple_call _ _ _ _ (readyWorld quals n)
           (pagedFrom_exact (shapeOf op name) env N n Hload
              ltac:(rewrite shapeOf_checks by exact Hp; exact Hn)
              ltac:(rewrite shapeOf_checks by exact Hp; exact Hnever)
              ltac:(rewrite shapeOf_checks by exact Hp; exact Hedge)
              fuel (Build_Client true) args Hfuel)).
  split; reflexivity.
Qed.

(** X13. A complete listing. With a session and a usable parent item, if
    the pages up to page [N] load, page [N] is the first to report no
    further pages and the fuel reaches it, a paged list function returns
    [nil, nil] and has streamed the items of pages [0..N] in order: all
    of them in [listAppConfigurations]; in the others, provided the
    context is never cancelled, the first [n] of them (all, if there are
    fewer) under a budget of [n ≥ 1] rows. *)
Theorem paged_listing_complete
    (op : ListOp) (fuel : nat) (env : Env) (h : Resource) (ses : Session)
    (quals : gmap string string) (n N : nat) :
  paged op = true →
  parentReady op h →
  session env = inr ses →
  pagesLoad env N →
  pagerFinishes env N →
  S N ≤ fuel →
  (checksRows op = true → 1 ≤ n) →
  (checksRows op = true → cancelAt env = None) →
  let r := call (runList op fuel env h) (initWorld quals n) in
  r.1 = Returned (GoReturn None None) ∧
  rows r.2 = map (wrapOf op h)
               (if checksRows op then take n (itemsUpTo env (S N))
                else itemsUpTo env (S N)).
Proof.
  intros Hp Hpar Hses Hload (pN & HpN & Hdone) Hfuel Hn Hnever r. subst r.
  destruct (paged_listing_end op fuel env h ses quals n N Hp Hpar Hses
              Hload Hfuel Hn Hnever) as (name & <- & Hend).
  { intros pN' p' HpN' Hmore _. congruence. }
  cbv zeta in Hend. rewrite <- (shapeOf_checks op name Hp).
  destruct Hend as [(-> & Hc & Hle & Hrows)
                   |(Hrows & Hshort & pN' & HpN' &
                     [(_ & ->)|(Hmore & _)])].
  - rewrite Hc. auto.
  - split; [reflexivity|]. rewrite Hrows.
    destruct (checks (shapeOf op name)); [|reflexivity].
    rewrite firstn_all2; [reflexivity|]. specialize (Hshort eq_refl). lia.
  - congruence.
Qed.

Lemma twoPages_load : pagesLoad twoPages 1.
Proof.
  split.
  - intros [|[|i]] Hi; [eexists; reflexivity | eexists; reflexivity | lia].
  - intros [|i] p Hi Hp; [|lia]. injection Hp as <-. reflexivity.
Qed.

Lemma paged_listing_complete_witness :
  let r := call (runList ListIamRoleDefinitions 2 twoPages resA)
             (initWorld ∅ 5) in
  r.1 = Returned (GoReturn None None) ∧
  rows r.2 = map (wrapOf ListIamRoleDefinitions resA)
               (if checksRows ListIamRoleDefinitions
                then take 5 (itemsUpTo twoPages 2)
                else itemsUpTo twoPages 2).
Proof.
  apply (paged_listing_complete ListIamRoleDefinitions 2 twoPages resA
           {| SubscriptionID := "sub" |} ∅ 5 1).
  - reflexivity.
  - intros Hc. discriminate Hc.
  - reflexivity.
  - exact twoPages_load.
  - eexists. split; reflexivity.
  - lia.
  - intros _. lia.
  - intros _. reflexivity.
Defined.

(** X14. A fetch that fails later. With a session and a usable parent
    item, if the pages up to page [N] load and all report further pages,
    the fetch of page [N+1] fails, and (where the budget is checked) the
    budget is larger than the number of items on pages [0..N] and the
    context is never cancelled, a paged list function has streamed
    exactly those items and returns the error: as the error result,
    except [listSecurityCenterAutoProvisioning], which returns it as the
    item with a nil error. *)
Theorem paged_listing_later_fetch_failure
    (op : ListOp) (fuel : nat) (env : Env) (h : Resource) (ses : Session)
    (quals : gmap string string) (n N : nat) (e : error) :
  paged op = true →
  parentReady op h →
  session env = inr ses →
  pagesLoad env N →
  (∃ pN, pages env N = inr pN ∧ more pN = true) →
  pages env (S N) = inl e →
  S N ≤ fuel →
  (checksRows op = true → length (itemsUpTo env (S N)) < n) →
  (checksRows op = true → cancelAt env = None) →
  let r := call (runList op fuel env h) (initWorld quals n) in
  r.1 = Returned (errorReturn (nextErrorInItem op) e) ∧
  rows r.2 = map (wrapOf op h) (itemsUpTo env (S N)).
Proof.
  intros Hp Hpar Hses Hload (pN & HpN & Hmore) Hfail Hfuel Hn Hnever r.
  subst r.
  destruct (paged_listing_end op fuel env h ses quals n N Hp Hpar Hses
              Hload Hfuel) as (name & <- & Hend).
  { intros Hc. specialize (Hn Hc). lia. }
  { exact Hnever. }
  { intros pN' p' _ _ Hnext. congruence. }
  cbv zeta in Hend. rewrite <- (shapeOf_nextErrInItem op name).
  destruct Hend as [(_ & Hc & Hle & _)
                   |(Hrows & _ & pN' & HpN' &
                     [(Hdone & _)|(_ & e' & He' & ->)])].
  - rewrite (shapeOf_checks op name Hp) in Hc. specialize (Hn Hc). lia.
  - congruence.
  - split; [|exact Hrows]. congruence.
Qed.

Lemma secondPageFails_load : pagesLoad secondPageFails 0.
Proof.
  split.
  - intros [|i] Hi; [eexists; reflexivity | lia].
  - intros i p Hi. lia.
Qed.

Lemma paged_listing_later_fetch_failure_witness :
  let r := call (runList ListSecurityCenterAutoProvisioning 1
                   secondPageFails resA) (initWorld ∅ 5) in
  r.1 = Returned (errorReturn
                    (nextErrorInItem ListSecurityCenterAutoProvisioning)
                    (Err "InternalServerError")) ∧
  rows r.2 = map (wrapOf ListSecurityCenterAutoProvisioning resA)
               (itemsUpTo secondPageFails 1).
Proof.
  apply (paged_listing_later_fetch_failure
           ListSecurityCenterAutoProvisioning 1 secondPageFails resA
           {| SubscriptionID := "sub" |} ∅ 5 0 (Err "InternalServerError")).
  - reflexivity.
  - intros Hc. discriminate Hc.
  - reflexivity.
  - exact secondPageFails_load.
  - eexists. split; reflexivity.
  - reflexivity.
  - lia.
  - intros _. vm_compute. lia.
  - intros _. reflexivity.
Defined.

(** X15. The budget cuts the listing short. With a session and a usable
    parent item, if the context is never cancelled and the pages up to
    page [N] load and hold at least [n ≥ 1] items, a list function that
    consults [RowsRemaining] returns [nil, nil] with exactly the first
    [n] of those items in the sink, whatever the provider would answer
    for the pages after page [N]. *)
Theorem paged_listing_stops_at_budget
    (op : ListOp) (fuel : nat) (env : Env) (h : Resource) (ses : Session)
    (quals : gmap string string) (n N : nat) :
  paged op = true →
  checksRows op = true →
  parentReady op h →
  session env = inr ses →
  pagesLoad env N →
  S N ≤ fuel →
  1 ≤ n →
  n ≤ length (itemsUpTo env (S N)) →
  cancelAt env = None →
  let r := call (runList op fuel env h) (initWorld quals n) in
  r.1 = Returned (GoReturn None None) ∧
  rows r.2 = map (wrapOf op h) (take n (itemsUpTo env (S N))).
Proof.
  intros Hp Hc Hpar Hses Hload Hfuel Hn Hle Hnever r. subst r.
  destruct (paged_listing_end op fuel env h ses quals n N Hp Hpar Hses
              Hload Hfuel) as (name & <- & Hend); [auto | auto | auto |].
  cbv zeta in Hend.
  destruct Hend as [(-> & _ & _ & Hrows)|(_ & Hshort & _)].
  - auto.
  - rewrite (shapeOf_checks op name Hp) in Hshort.
    specialize (Hshort Hc). lia.
Qed.

Lemma threePages_load : pagesLoad threePages 0.
Proof.
  split.
  - intros [|i] Hi; [eexists; reflexivity | lia].
  - intros i p Hi. lia.
Qed.

Lemma paged_listing_stops_at_budget_witness :
  let r := call (runList ListPolicyAssignments 1 threePages resA)
             (initWorld ∅ 2) in
  r.1 = Returned (GoReturn None None) ∧
  rows r.2 = map (wrapOf ListPolicyAssignments resA)
               (take 2 (itemsUpTo threePages 1)).
Proof.
  apply (paged_listing_stops_at_budget ListPolicyAssignments 1 threePages
           resA {| SubscriptionID := "sub" |} ∅ 2 0).
  - reflexivity.
  - reflexivity.
  - intros Hc. discriminate Hc.
  - reflexivity.
  - exact threePages_load.
  - lia.
  - lia.
  - vm_compute. lia.
  - reflexivity.
Defined.

(* ================================================================== *)
(** ** Pages are fetched only while rows are wanted *)

Section InTime.
Variable sh : Shape.
Variable env : Env.
Variable n0 : nat.
Hypothesis Hchecks : checks sh = true.

(** Whenever a page was fetched, the items of the pages before it were
    fewer than the budget. *)
Let inTime (w : World) : Prop :=
  ∀ p, pagesFetched w = S p → length (itemsUpTo env p) < n0.

(** The sink holds [done], the budget accounts for every row and is not
    used up, and the pages so far were fetched in time. *)
Let going (done : list Resource) (w : World) : Prop :=
  rows w = map (wrap sh) done ∧
  length (rows w) + rowsRemaining w = n0 ∧ 1 ≤ rowsRemaining w ∧ inTime w.

Lemma streamItem_inTime done v :
  triple (going done) (streamItem sh env v)
    (fun _ => going (done ++ [v])) (fun _ => inTime).
Proof.
  intros w (Hrows & Hsum & Hpos & Hin).
  unfold streamItem, bind, StreamListItem, RowsRemaining.
  rewrite Hchecks. simpl.
  match goal with
  | |- context [Nat.eqb ?x 0] => destruct (Nat.eqb x 0) eqn:Hz
  end; simpl; [exact Hin|].
  apply Nat.eqb_neq in Hz.
  split; simpl; [rewrite Hrows, map_app; reflexivity|].
  rewrite length_app. simpl.
  destruct (ctxCancelled env _); [contradiction Hz; reflexivity|].
  repeat split; try lia. exact Hin.
Qed.

Lemma forRange_inTime prev vs :
  triple (going prev) (forRange vs (streamItem sh env))
    (fun _ => going (prev ++ vs)) (fun _ => inTime).
Proof.
  eapply triple_weaken.
  - apply (triple_forRange (fun seen => going (prev ++ seen))
             (streamItem sh env) vs (fun _ => inTime)).
    intros seen v rest _. rewrite app_assoc. apply streamItem_inTime.
  - intros w Hw. rewrite app_nil_r. exact Hw.
  - auto.
  - auto.
Qed.

(** Between two pages. *)
Let standingOn (r : Pager) (w : World) : Prop :=
  pagesFetched w = S (pos r) ∧ going (itemsUpTo env (S (pos r))) w.

Lemma going_inTime done w : going done w → inTime w.
Proof. intros (_ & _ & _ & H). exact H. Qed.

Lemma nextPage_inTime r :
  triple (standingOn r) (nextPage sh env r)
    (fun r' => standingOn r') (fun _ => inTime).
Proof.
  unfold nextPage.
  eapply triple_bind with (R := fun _ => standingOn r).
  { intros w Hw. exact Hw. }
  intros ?.
  eapply triple_bind with
    (R := fun x w => match x with
                     | inl _ => inTime w
                     | inr r' =>
                         pages env (pos r') = inr (page r') ∧
                         pos r' = S (pos r) ∧ pagesFetched w = S (pos r') ∧
                         going (itemsUpTo env (pos r')) w
                     end).
  { intros w (Hm & Hrows & Hsum & Hpos & Hin).
    unfold NextWithContext, bind, emit. simpl.
    destruct (pages env (S (pos r))) as [e|p] eqn:Hp; simpl.
    - exact Hin.
    - split; [exact Hp|]. split; [reflexivity|].
      split; [congruence|]. split; [exact Hrows|].
      split; [exact Hsum|]. split; [exact Hpos|].
      intros q Hq. simpl in Hq. rewrite Hm in Hq. injection Hq as <-.
      rewrite Hrows, length_map in Hsum. lia. }
  intros [e|r'].
  - unfold errReturn. destruct (nextErrInItem sh); apply triple_returnGo;
      auto.
  - intros w (Hp' & Hnext & Hm' & Hgo). revert w Hm' Hgo.
    assert (Hpage : ∀ P : World → Prop,
              (∀ w w', pagesFetched w' = pagesFetched w → P w → P w') →
              triple (fun w => P w ∧ going (itemsUpTo env (pos r')) w)
                (forRange (Values r') (streamItem sh env))
                (fun _ w => P w ∧ going (itemsUpTo env (S (pos r'))) w)
                (fun _ => inTime)).
    { intros P HP w [HPw Hgo].
      pose proof (forRange_inTime (itemsUpTo env (pos r')) (Values r') w Hgo)
        as Hrun.
      pose proof (forRange_exits sh env P (Values r') HP w HPw) as Hkeep.
      destruct (forRange (Values r') (streamItem sh env) w) as [[[]|o] w'];
        [|exact Hrun].
      split; [exact Hkeep|].
      rewrite itemsUpTo_S. unfold itemsAt. rewrite Hp'. exact Hrun. }
    intros w Hm' Hgo.
    pose proof (Hpage (fun w => pagesFetched w = S (pos r'))
                  ltac:(intros; congruence) w (conj Hm' Hgo)) as Hrun.
    unfold bind.
    destruct (forRange (Values r') (streamItem sh env) w) as [[[]|o] w'];
      [|exact Hrun].
    exact Hrun.
Qed.

Lemma pagedFrom_inTime fuel c args :
  triple (fun w => pagesFetched w = 0 ∧ rows w = [] ∧ rowsRemaining w = n0 ∧
                   1 ≤ n0)
    (pagedFrom sh fuel env c args) (fun _ _ => False) (fun _ => inTime).
Proof.
  unfold pagedFrom.
  eapply triple_bind with
    (R := fun x w => match x with
                     | inl _ => inTime w
                     | inr r =>
                         pages env 0 = inr (page r) ∧ pos r = 0 ∧
                         pagesFetched w = 1 ∧ going [] w
                     end).
  { intros w (Hm & Hrows & Hrem & Hn).
    unfold client_List, bind, emit. simpl.
    destruct (pages env 0) as [e|p] eqn:Hp; simpl.
    - intros q Hq. simpl in Hq. congruence.
    - split; [reflexivity|]. split; [reflexivity|].
      split; [congruence|]. split; [exact Hrows|].
      split; [simpl; rewrite Hrows; exact Hrem|].
      split; [simpl; lia|].
      intros q Hq. simpl in Hq. rewrite Hm in Hq. injection Hq as <-.
      simpl. lia. }
  intros [e|r].
  - unfold errReturn. destruct (listErrInItem sh); apply triple_returnGo;
      auto.
  - intros w (Hp0 & Hpos & Hm & Hgo). revert w Hm Hgo.
    match goal with |- ∀ w, _ → _ → match ?m w with _ => _ end =>
      change (∀ w, pagesFetched w = 1 → going [] w →
                   match m w with
                   | (Continue a, _) => False
                   | (Stop _, w') => inTime w'
                   end) end.
    intros w Hm Hgo. unfold bind at 1.
    pose proof (forRange_inTime [] (Values r) w Hgo) as Hrun.
    pose proof (forRange_exits sh env (fun w => pagesFetched w = 1)
                  (Values r) ltac:(intros; congruence) w Hm) as Hkeep.
    destruct (forRange (Values r) (streamItem sh env) w) as [[[]|o] w1];
      [|exact Hrun].
    assert (Hstand : standingOn r w1).
    { split; [rewrite Hpos; exact Hkeep|].
      rewrite Hpos, itemsUpTo_S. unfold itemsAt. rewrite Hp0. exact Hrun. }
    clear Hrun Hkeep. cbv beta iota. revert w1 Hstand.
    match goal with |- ∀ w1, _ → match ?m w1 with _ => _ end =>
      change (triple (standingOn r) m (fun _ _ => False) (fun _ => inTime))
    end.
    eapply triple_bind with (R := fun r' => standingOn r').
    + apply (triple_forNotDone (fun _ r' => standingOn r')).
      * intros. apply nextPage_inTime.
      * intros r' w2 _ [_ Hw]. apply (going_inTime _ _ Hw).
      * auto.
    + intros r'. apply triple_returnGo.
      intros w2 [_ Hw]. apply (going_inTime _ _ Hw).
Qed.
End InTime.

(** X29. In the paged list functions that consult [RowsRemaining], under a
    budget of [n ≥ 1] rows, a page is fetched only while rows are still
    wanted: the items of the pages before the last page fetched are fewer
    than [n]. This holds whatever the provider answers and whenever the
    context is cancelled. *)
Theorem no_page_fetched_past_the_budget
    (op : ListOp) (fuel : nat) (env : Env) (h : Resource)
    (quals : gmap string string) (n p : nat) :
  paged op = true →
  checksRows op = true →
  1 ≤ n →
  pagesFetched (call (runList op fuel env h) (initWorld quals n)).2 = S p →
  length (itemsUpTo env p) < n.
Proof.
  intros Hp Hchk Hn.
  destruct (runList_paged_cases op fuel env h quals n Hp)
    as [(e & _ & ->)|[(q & ->)|[(q & ->)|
         (name & c & args & _ & _ & ->)]]];
    try (simpl; discriminate).
  revert p.
  apply (triple_call _ _ _ _ (readyWorld quals n)
           (pagedFrom_inTime (shapeOf op name) env n
              ltac:(rewrite shapeOf_checks by exact Hp; exact Hchk)
              fuel c args)).
  repeat split; assumption.
Qed.

Lemma no_page_fetched_past_the_budget_witness :
  length (itemsUpTo threePages 1) < 3.
Proof.
  apply (no_page_fetched_past_the_budget ListPolicyAssignments 3 threePages
           resA ∅ 3 1).
  - reflexivity.
  - reflexivity.
  - lia.
  - vm_compute. reflexivity.
Defined.

(* ================================================================== *)
(** ** The budget check, row by row *)

(** A property of the world that the steps of the common tail keep is
    kept by the tail. *)
Lemma pagedFrom_establishes (P0 P : World → Prop) sh fuel env c args :
  (∀ w, P0 w → P (logged (EvCall OpList (retryRules c) args) w)) →
  (∀ w retry, P w → P (logged (EvCall OpNext retry []) w)) →
  (∀ w, P w → P (logged EvWaitForListRateLimit w)) →
  (∀ w, P w → P (fetched w)) →
  (∀ v, triple P (streamItem sh env v) (fun _ => P) (fun _ => P)) →
  triple P0 (pagedFrom sh fuel env c args) (fun _ _ => False) (fun _ => P).
Proof.
  intros Hlist Hcall Hwait Hfetched Hstream.
  assert (Hrange : ∀ vs, triple P (forRange vs (streamItem sh env))
                           (fun _ => P) (fun _ => P)).
  { intros vs. apply (triple_forRange (fun _ => P)). intros. apply Hstream. }
  unfold pagedFrom.
  eapply triple_bind with (R := fun _ => P).
  { intros w Hw. unfold client_List, bind, emit. simpl.
    destruct (pages env 0); simpl; auto. }
  intros [e|r].
  - unfold errReturn. destruct (listErrInItem sh); apply triple_returnGo;
      auto.
  - eapply triple_bind with (R := fun _ => P); [apply Hrange|].
    intros ?. eapply triple_bind with (R := fun _ => P).
    + apply (triple_forNotDone (fun _ _ => P)); auto.
      intros f r' _. unfold nextPage.
      eapply triple_bind with (R := fun _ => P).
      { intros w Hw. apply Hwait, Hw. }
      intros ?. eapply triple_bind with (R := fun _ => P).
      { intros w Hw. unfold NextWithContext, bind, emit. simpl.
        destruct (pages env (S (pos r'))); simpl; auto. }
      intros [e|r''].
      * unfold errReturn. destruct (nextErrInItem sh);
          apply triple_returnGo; auto.
      * eapply triple_bind with (R := fun _ => P); [apply Hrange|].
        intros ?. apply triple_ret. auto.
    + intros ?. apply triple_returnGo. auto.
Qed.

Lemma pagedFrom_preserves (P : World → Prop) sh fuel env c args :
  (∀ w op retry a, P w → P (logged (EvCall op retry a) w)) →
  (∀ w, P w → P (logged EvWaitForListRateLimit w)) →
  (∀ w, P w → P (fetched w)) →
  (∀ v, triple P (streamItem sh env v) (fun _ => P) (fun _ => P)) →
  triple P (pagedFrom sh fuel env c args) (fun _ _ => False) (fun _ => P).
Proof.
  intros Hcall Hwait Hfetched Hstream.
  apply pagedFrom_establishes; auto.
Qed.

Lemma reverse_snoc_head {A} (l pre : list A) (x : A) :
  reverse l = pre ++ [x] → l = x :: reverse pre.
Proof.
  intros H. apply (f_equal reverse) in H.
  rewrite reverse_involutive, reverse_app in H. exact H.
Qed.

Lemma rowsChecked_history l :
  rowsChecked l →
  ∀ pre v post,
    reverse l = pre ++ EvStreamListItem v :: post →
    post = [] ∨ ∃ post', post = EvRowsRemaining :: post'.
Proof.
  induction l as [|e l IH]; intros Hc pre v post H.
  - destruct pre; discriminate H.
  - rewrite reverse_cons in H. destruct Hc as [He Hl].
    apply snoc_split in H as [(-> & _ & _)|(post' & -> & H)]; [auto|].
    right. destruct (IH Hl pre v post' H) as [->|(post'' & ->)].
    + apply reverse_snoc_head in H. subst l. simpl in He. subst e.
      exists []. reflexivity.
    + eexists. reflexivity.
Qed.

Lemma rowsChecked_settled_history l :
  rowsChecked l → settled l → checkedAfterEachRow (reverse l).
Proof.
  intros Hc Hs pre v post H.
  destruct (rowsChecked_history l Hc pre v post H) as [->|Hpost];
    [|exact Hpost].
  apply reverse_snoc_head in H. subst l. contradiction.
Qed.

Lemma tidy_logged e w :
  match e with EvStreamListItem _ => False | _ => True end →
  tidy w → tidy (logged e w).
Proof.
  intros He [Hc Hs]. unfold tidy. simpl. split.
  - split; [|exact Hc]. destruct (log w) as [|[] ?]; try exact I.
    contradiction.
  - destruct e; try exact I. contradiction.
Qed.

Lemma tidy_streamItem sh env v :
  checks sh = true →
  triple tidy (streamItem sh env v) (fun _ => tidy) (fun _ => tidy).
Proof.
  intros Hchk w [Hc Hs]. unfold streamItem, bind, StreamListItem,
    RowsRemaining. rewrite Hchk. simpl.
  assert (H : tidy (logged EvRowsRemaining
                      (logged (EvStreamListItem (wrap sh v)) w))).
  { unfold tidy. simpl. split; [|exact I].
    split; [reflexivity|]. split; [|exact Hc].
    destruct (log w) as [|[] ?]; try exact I. contradiction. }
  destruct (Nat.eqb _ 0); exact H.
Qed.

Lemma tidy_pagedFrom sh fuel env c args :
  checks sh = true →
  triple tidy (pagedFrom sh fuel env c args) (fun _ _ => False)
    (fun _ => tidy).
Proof.
  intros Hchk. apply pagedFrom_preserves.
  - intros w op retry a. apply tidy_logged. exact I.
  - intros w. apply tidy_logged. exact I.
  - intros w Hw. exact Hw.
  - intros v. apply tidy_streamItem, Hchk.
Qed.

(** X16. In every list function that consults the budget (the paged ones
    other than [listAppConfigurations], and [listNetworkWatchers]), each
    row streamed is followed at once by a look at [RowsRemaining]:
    nothing is called, awaited or streamed in between. *)
Theorem budget_checked_after_each_row
    (op : ListOp) (fuel : nat) (env : Env) (h : Resource)
    (quals : gmap string string) (n : nat) :
  checksRows op = true →
  checkedAfterEachRow
    (history (call (runList op fuel env h) (initWorld quals n)).2).
Proof.
  intros Hchk.
  assert (Htidy : tidy (call (runList op fuel env h) (initWorld quals n)).2).
  { destruct (paged op) eqn:Hp.
    - destruct (runList_paged_cases op fuel env h quals n Hp)
        as [(e & _ & ->)|[(p & ->)|[(p & ->)|
             (name & c & args & _ & _ & ->)]]];
        try (split; simpl; tauto).
      apply (triple_call _ _ _ _ (readyWorld quals n)
               (tidy_pagedFrom (shapeOf op name) fuel env c args
                  ltac:(rewrite shapeOf_checks by exact Hp; exact Hchk))).
      split; simpl; tauto.
    - destruct op; try discriminate Hp; try discriminate Hchk.
      simpl runList.
      unfold call, listNetworkWatchers, bind, GetNewSession,
        ApplyRetryRules, client_ListAll, emit, ret. simpl.
      destruct (session env) as [e|ses]; simpl; [split; simpl; tauto|].
      destruct (listAll env) as [e|[vs|]]; simpl;
        try (split; simpl; tauto).
      match goal with
      | |- context [forRange vs ?body ?w] =>
          assert (H0 : tidy w) by (split; simpl; tauto);
          pose proof (triple_forRange (fun _ => tidy)
                        (streamItem (shapeOf ListNetworkWatchers "") env) vs
                        (fun _ => tidy)
                        (fun _ v _ _ =>
                           tidy_streamItem (shapeOf ListNetworkWatchers "")
                             env v eq_refl) w H0) as H;
          change (forRange vs body w)
            with (forRange vs
                    (streamItem (shapeOf ListNetworkWatchers "") env) w)
      end.
      destruct (forRange vs _ _) as [[[]|o] w']; exact H. }
  destruct Htidy as [Hc Hs].
  apply rowsChecked_settled_history; assumption.
Qed.

Lemma budget_checked_after_each_row_witness :
  checkedAfterEachRow
    (history (call (runList ListNetworkWatchers 0 twoPages resA)
                (initWorld ∅ 5)).2).
Proof.
  apply (budget_checked_after_each_row ListNetworkWatchers 0 twoPages resA
           ∅ 5).
  reflexivity.
Defined.

Lemma unasked_streamItem sh env v :
  checks sh = false →
  triple unasked (streamItem sh env v) (fun _ => unasked) (fun _ => unasked).
Proof.
  intros Hchk w Hw. unfold streamItem, StreamListItem. rewrite Hchk.
  unfold unasked. simpl. apply not_elem_of_cons. split; [discriminate|].
  exact Hw.
Qed.

(** X17. [listAppConfigurations], [listSubscriptions] and
    [getSecurityCenterDetails] never look at the row budget: no run of
    them calls [RowsRemaining]. *)
Theorem budget_never_consulted
    (op : ListOp) (fuel : nat) (env : Env) (h : Resource)
    (quals : gmap string string) (n : nat) :
  checksRows op = false →
  EvRowsRemaining ∉ log (call (runList op fuel env h) (initWorld quals n)).2.
Proof.
  intros Hchk.
  assert (Hcons : ∀ e w, e ≠ EvRowsRemaining → unasked w →
                         unasked (logged e w)).
  { intros e w He Hw. unfold unasked. simpl.
    apply not_elem_of_cons. split; [congruence | exact Hw]. }
  assert (Hinit : unasked (initWorld quals n)).
  { unfold unasked. simpl. apply not_elem_of_nil. }
  destruct op; try discriminate Hchk; simpl runList.
  - rewrite listAppConfigurations_shape.
    unfold call, withSession, bind, GetNewSession, ApplyRetryRules, emit,
      ret. simpl.
    destruct (session env) as [e|ses]; simpl.
    + apply not_elem_of_cons. split; [discriminate | apply not_elem_of_nil].
    + match goal with
      | |- context [pagedFrom ?sh ?f ?en ?c ?a ?w] =>
          apply (triple_call unasked (pagedFrom sh f en c a)
                   (fun _ _ => False) (fun _ => unasked) w)
      end.
      * apply pagedFrom_preserves.
        -- intros w op retry a. apply Hcons. discriminate.
        -- intros w. apply Hcons. discriminate.
        -- intros w Hw. exact Hw.
        -- intros v. apply unasked_streamItem. reflexivity.
      * unfold unasked. simpl. rewrite !not_elem_of_cons.
        repeat split; try discriminate. apply not_elem_of_nil.
  - unfold call, listSubscriptions, bind, GetNewSession, ApplyRetryRules,
      client_Get, StreamListItem, emit, ret. simpl.
    destruct (session env) as [e|ses]; simpl;
      [apply not_elem_of_cons; split;
         [discriminate | apply not_elem_of_nil]|].
    destruct (getResp env) as [e|obj]; simpl; unfold unasked; simpl;
      rewrite !not_elem_of_cons; repeat split; try discriminate;
      apply not_elem_of_nil.
  - unfold call, getSecurityCenterDetails, bind, GetNewSession,
      StreamListItem, emit, ret. simpl.
    destruct (session env) as [e|ses]; simpl; unfold unasked; simpl;
      rewrite !not_elem_of_cons; repeat split; try discriminate;
      apply not_elem_of_nil.
Qed.

Lemma budget_never_consulted_witness :
  EvRowsRemaining
  ∉ log (call (runList ListAppConfigurations 3 twoPages resA)
           (initWorld ∅ 1)).2.
Proof.
  apply (budget_never_consulted ListAppConfigurations 3 twoPages resA ∅ 1).
  reflexivity.
Defined.

(* ================================================================== *)
(** ** Well-formed resource IDs *)

Lemma strings_Split_nonempty s sep : strings_Split s sep ≠ [].
Proof.
  intros H. pose proof (strings_Split_length s sep) as Hl.
  rewrite H in Hl. discriminate Hl.
Qed.

Lemma strings_Split_noSlash s : noSlash s → strings_Split s slash = [s].
Proof.
  unfold noSlash. induction s as [|a s IH]; simpl; [reflexivity|].
  destruct (Ascii.eqb a slash); simpl; [discriminate|].
  intros H. rewrite (IH H). reflexivity.
Qed.

(** Splitting distributes over a separator. *)
Lemma strings_Split_app s t sep :
  strings_Split (s +:+ String sep t) sep
  = strings_Split s sep ++ strings_Split t sep.
Proof.
  induction s as [|a s IH]; simpl.
  - rewrite Ascii.eqb_refl. reflexivity.
  - destruct (Ascii.eqb a sep); simpl.
    + change (String.append s (String sep t)) with (s +:+ String sep t).
      rewrite IH. reflexivity.
    + change (String.append s (String sep t)) with (s +:+ String sep t).
      rewrite IH.
      pose proof (strings_Split_nonempty s sep) as Hne.
      destruct (strings_Split s sep) as [|seg segs]; [congruence|].
      reflexivity.
Qed.

Lemma append_empty_r s : s +:+ "" = s.
Proof.
  induction s as [|a s IH]; [reflexivity|].
  change (String a s +:+ "") with (String a (s +:+ "")).
  f_equal. exact IH.
Qed.

Lemma strings_Split_after seg segs :
  Forall noSlash (seg :: segs) →
  strings_Split (seg +:+ resourceID segs) slash = seg :: segs.
Proof.
  revert seg. induction segs as [|s2 segs IH]; intros seg Hall.
  - simpl. rewrite append_empty_r. apply strings_Split_noSlash.
    apply (Forall_inv Hall).
  - change (resourceID (s2 :: segs))
      with (String slash (s2 +:+ resourceID segs)).
    rewrite strings_Split_app.
    rewrite (strings_Split_noSlash seg (Forall_inv Hall)).
    rewrite (IH s2 (Forall_inv_tail Hall)). reflexivity.
Qed.

(** Splitting a resource ID gives back its segments, after the empty
    string that stands before the leading slash. *)
Lemma strings_Split_resourceID segs :
  Forall noSlash segs →
  strings_Split (resourceID segs) slash = "" :: segs.
Proof.
  destruct segs as [|seg segs]; intros Hall; [reflexivity|].
  change (resourceID (seg :: segs))
    with (String slash (seg +:+ resourceID segs)).
  simpl. rewrite (strings_Split_after seg segs Hall). reflexivity.
Qed.

Lemma extends_logged e base w : extends base w → extends base (logged e w).
Proof. intros [l Hl]. exists (e :: l). simpl. rewrite Hl. reflexivity. Qed.

Lemma pagedFrom_first_call sh fuel env c args w0 :
  extends (EvCall OpList (retryRules c) args :: log w0)
    (call (pagedFrom sh fuel env c args) w0).2.
Proof.
  set (base := EvCall OpList (retryRules c) args :: log w0).
  apply (triple_call (fun w => log w = log w0) _ (fun _ _ => False)
           (fun _ => extends base)); [|reflexivity].
  apply pagedFrom_establishes.
  - intros w Hw. exists []. simpl. rewrite Hw. reflexivity.
  - intros w retry. apply extends_logged.
  - intros w. apply extends_logged.
  - intros w Hw. exact Hw.
  - intros v w Hw. unfold streamItem, bind, StreamListItem, RowsRemaining.
    assert (H1 : ∀ e, extends base (logged e w))
      by (intros e; apply extends_logged, Hw).
    destruct (checks sh); simpl; [|apply (H1 (EvStreamListItem _))].
    assert (H2 : extends base
                   (logged EvRowsRemaining
                      (logged (EvStreamListItem (wrap sh v)) w)))
      by (apply extends_logged, H1).
    destruct (Nat.eqb _ 0); exact H2.
Qed.

(** X18. The resource group of the [List] call comes from the parent's
    ID. For a parent item whose ID is a resource ID of slash-free segments
    and whose Name is set, [listBackendAddressPools] and
    [listNetworkWatcherFlowLogs] begin by creating the session, applying
    the retry rules and calling [List] with the fourth segment of the ID
    (the one after [resourceGroups] in [/subscriptions/s/resourceGroups/g])
    and the parent's name, in this order. *)
Theorem list_call_takes_resource_group_from_parent_ID
    (op : ListOp) (fuel : nat) (env : Env) (h : Resource) (ses : Session)
    (segs : list string) (rg name : string)
    (quals : gmap string string) (n : nat) :
  usesParent op = true →
  session env = inr ses →
  ID h = Some (resourceID segs) →
  Forall noSlash segs →
  segs !! 3 = Some rg →
  Name h = Some name →
  ∃ later,
    history (call (runList op fuel env h) (initWorld quals n)).2
    = [EvGetNewSession; EvApplyRetryRules; EvCall OpList true [rg; name]]
      ++ later.
Proof.
  intros Hpar Hses Hid Hsegs Hrg Hname.
  assert (Hsplit : strings_Split (resourceID segs) slash !! 4 = Some rg).
  { rewrite (strings_Split_resourceID segs Hsegs). exact Hrg. }
  assert (Hgo : ∃ sh,
            call (runList op fuel env h) (initWorld quals n)
            = call (pagedFrom sh fuel env (Build_Client true) [rg; name])
                (readyWorld quals n)).
  { destruct op; try discriminate Hpar; simpl runList;
      [rewrite listBackendAddressPools_shape
      |rewrite listNetworkWatcherFlowLogs_shape];
      unfold call, withSession, bind, GetNewSession, emit, ret, index;
      simpl; rewrite Hses; simpl; rewrite Hid; simpl; rewrite Hsplit;
      simpl; rewrite Hname; simpl; eexists; reflexivity. }
  destruct Hgo as [sh ->].
  destruct (pagedFrom_first_call sh fuel env (Build_Client true) [rg; name]
              (readyWorld quals n)) as [l Hl].
  exists (reverse l). unfold history. rewrite Hl.
  rewrite reverse_app. f_equal.
Qed.

Lemma list_call_takes_resource_group_from_parent_ID_witness :
  ∃ later,
    history (call (runList ListBackendAddressPools 3 twoPages resA)
               (initWorld ∅ 5)).2
    = [EvGetNewSession; EvApplyRetryRules; EvCall OpList true ["rg"; "a"]]
      ++ later.
Proof.
  apply (list_call_takes_resource_group_from_parent_ID
           ListBackendAddressPools 3 twoPages resA
           {| SubscriptionID := "sub" |}
           ["subscriptions"; "sub"; "resourceGroups"; "rg"; "providers";
            "Microsoft.Network"; "loadBalancers"; "lb";
            "backendAddressPools"; "a"]).
  - reflexivity.
  - reflexivity.
  - reflexivity.
  - repeat constructor.
  - reflexivity.
  - reflexivity.
Defined.

(** X19. The load balancer name of a backend address pool. For a pool
    whose ID is a resource ID of slash-free segments,
    [extractLoadBalancerNameFromBackendAddressPoolID] returns its eighth
    segment: the one after [loadBalancers] in
    [/subscriptions/s/resourceGroups/g/providers/Microsoft.Network/loadBalancers/lb/backendAddressPools/p]. *)
Theorem load_balancer_name_is_eighth_segment
    (data : Resource) (segs : list string) (lb : string) (w : World) :
  ID data = Some (resourceID segs) →
  Forall noSlash segs →
  segs !! 7 = Some lb →
  call (extractLoadBalancerNameFromBackendAddressPoolID data) w
  = (Returned (GoReturn (Some (VString lb)) None), w).
Proof.
  intros Hid Hsegs Hlb.
  unfold call, extractLoadBalancerNameFromBackendAddressPoolID, bind, index.
  rewrite Hid. simpl. rewrite (strings_Split_resourceID segs Hsegs).
  change (("" :: segs) !! 8) with (segs !! 7). rewrite Hlb. reflexivity.
Qed.

Lemma load_balancer_name_is_eighth_segment_witness :
  call (extractLoadBalancerNameFromBackendAddressPoolID resA) (initWorld ∅ 1)
  = (Returned (GoReturn (Some (VString "lb")) None), initWorld ∅ 1).
Proof.
  apply (load_balancer_name_is_eighth_segment resA
           ["subscriptions"; "sub"; "resourceGroups"; "rg"; "providers";
            "Microsoft.Network"; "loadBalancers"; "lb";
            "backendAddressPools"; "a"]).
  - reflexivity.
  - repeat constructor.
  - reflexivity.
Defined.

(* ================================================================== *)
(** ** Instances of the lemmas on budget and retry rules *)

Lemma rows_within_budget_where_checked_witness :
  length (rows (call (runList ListNetworkWatcherFlowLogs 3 twoPages resA)
                  (initWorld ∅ 2)).2) ≤ 2.
Proof.
  apply (rows_within_budget_where_checked ListNetworkWatcherFlowLogs 3
           twoPages resA ∅ 2).
  - discriminate.
  - lia.
Defined.

Lemma get_calls_carry_retry_rules_witness :
  retried (log (call (runGet GetBackendAddressPool twoPages)
                  (initWorld sampleQuals 1)).2).
Proof.
  apply (get_calls_carry_retry_rules GetBackendAddressPool twoPages
           sampleQuals 1).
  discriminate.
Defined.

(* ------------------------------------------------------------------ *)
(** ** Column hydrates and transforms *)

Lemma rangeAppend_map {A B} (xs : list A) (f : A → B) (acc : list B) :
  rangeAppend xs f acc = acc ++ map f xs.
Proof.
  revert acc. induction xs as [|x xs IH]; intros acc; simpl.
  - now rewrite app_nil_r.
  - rewrite IH, <- app_assoc. reflexivity.
Qed.

Lemma rangeAppend_length {A B} (xs : list A) (f : A → B) :
  length (rangeAppend xs f []) = length xs.
Proof. rewrite rangeAppend_map. simpl. apply length_map. Qed.

Lemma rangeAppend_lookup {A B} (xs : list A) (f : A → B) i x :
  xs !! i = Some x → rangeAppend xs f [] !! i = Some (f x).
Proof.
  intros Hx. rewrite rangeAppend_map. simpl.
  change (map f xs) with (f <$> xs).
  rewrite list_lookup_fmap, Hx. reflexivity.
Qed.

Lemma history_logged e w : history (logged e w) = history w ++ [e].
Proof. unfold history. simpl. apply reverse_cons. Qed.

(** X20. [listAppConfigurationDiagnosticSettings] dereferences the ID of
    the configuration store before anything else: on a store without ID
    it panics with a nil dereference, and nothing has happened by then -
    no session was requested and no call made. *)
Lemma diagnostic_settings_nil_ID_panics_first env resp store w :
  csID store = None →
  callHydrate (listAppConfigurationDiagnosticSettings env resp store) w
  = (HStopped (Panicked NilDereference), w).
Proof.
  intros Hid. unfold callHydrate, listAppConfigurationDiagnosticSettings.
  rewrite Hid. reflexivity.
Qed.

Lemma diagnosticSettingMap_lookup v :
  diagnosticSettingMap v !! "id" = (FStringPtr ∘ Some) <$> dsID v ∧
  diagnosticSettingMap v !! "name" = (FStringPtr ∘ Some) <$> dsName v ∧
  diagnosticSettingMap v !! "type" = (FStringPtr ∘ Some) <$> dsType v ∧
  diagnosticSettingMap v !! "properties"
    = (FObjectPtr ∘ Some) <$> dsDiagnosticSettings v.
Proof.
  destruct v as [[i|] [n|] [t|] [p|]]; unfold diagnosticSettingMap; simpl;
    repeat split; reflexivity.
Qed.

Lemma diagnosticSettingMap_other v k :
  k ∉ ["id"; "name"; "type"; "properties"] →
  diagnosticSettingMap v !! k = None.
Proof.
  intros Hk. rewrite !not_elem_of_cons in Hk.
  destruct Hk as (H1 & H2 & H3 & H4 & _).
  destruct v as [[i|] [n|] [t|] [p|]]; unfold diagnosticSettingMap; simpl;
    unfold setIf; simpl; simplify_map_eq; reflexivity.
Qed.

(** X21. With a store ID and a session, a successful answer of the
    diagnostic settings call is turned into one map per setting, in the
    provider's order, with a nil error. A map has an entry for [id],
    [name], [type], [properties] exactly when that field of the setting is
    set, the entry is the field, and there are no other entries. The call
    is the only one made, is made with retry rules applied and has the
    store ID as its argument; no row is streamed. *)
Lemma diagnostic_settings_hold_the_set_fields env store id settings s w :
  csID store = Some id →
  session env = inr s →
  ∃ ms w',
    callHydrate
      (listAppConfigurationDiagnosticSettings env (inr (Some settings)) store)
      w
    = (HReturned (HydrateReturn (Some (HMaps ms)) None), w') ∧
    history w' = history w ++ [EvGetNewSession; EvApplyRetryRules;
                               EvCall OpList true [id]] ∧
    rows w' = rows w ∧
    length ms = length settings ∧
    ∀ i v, settings !! i = Some v →
      ∃ m, ms !! i = Some m ∧
        m !! "id" = (FStringPtr ∘ Some) <$> dsID v ∧
        m !! "name" = (FStringPtr ∘ Some) <$> dsName v ∧
        m !! "type" = (FStringPtr ∘ Some) <$> dsType v ∧
        m !! "properties" = (FObjectPtr ∘ Some) <$> dsDiagnosticSettings v ∧
        ∀ k, k ∉ ["id"; "name"; "type"; "properties"] → m !! k = None.
Proof.
  intros Hid Hs.
  eexists (rangeAppend settings diagnosticSettingMap []), _.
  split.
  { unfold callHydrate, listAppConfigurationDiagnosticSettings, GetNewSession.
    rewrite Hid. simpl. rewrite Hs. simpl. reflexivity. }
  split.
  { rewrite !history_logged, <- !app_assoc. reflexivity. }
  split; [reflexivity|].
  split; [apply rangeAppend_length|].
  intros i v Hv. exists (diagnosticSettingMap v).
  split; [apply rangeAppend_lookup; exact Hv|].
  destruct (diagnosticSettingMap_lookup v) as (H1 & H2 & H3 & H4).
  repeat (split; [assumption|]).
  apply diagnosticSettingMap_other.
Qed.

(** X22. How [listAppConfigurationDiagnosticSettings] fails on a store
    with an ID. A session failure is returned as the error, with a nil
    item, before any call. A failure of the diagnostic settings call is
    returned the same way. An answer whose [Value] pointer is nil makes
    the function panic with a nil dereference, after the call. *)
Lemma diagnostic_settings_failures env resp store id w :
  csID store = Some id →
  (∀ err, session env = inl err →
     callHydrate (listAppConfigurationDiagnosticSettings env resp store) w
     = (HReturned (HydrateReturn None (Some err)),
        logged EvGetNewSession w)) ∧
  (∀ s err, session env = inr s → resp = inl err →
     ∃ w',
       callHydrate (listAppConfigurationDiagnosticSettings env resp store) w
       = (HReturned (HydrateReturn None (Some err)), w') ∧
       history w' = history w ++ [EvGetNewSession; EvApplyRetryRules;
                                  EvCall OpList true [id]]) ∧
  (∀ s, session env = inr s → resp = inr None →
     ∃ w',
       callHydrate (listAppConfigurationDiagnosticSettings env resp store) w
       = (HStopped (Panicked NilDereference), w') ∧
       history w' = history w ++ [EvGetNewSession; EvApplyRetryRules;
                                  EvCall OpList true [id]]).
Proof.
  intros Hid. repeat split.
  - intros err Hs.
    unfold callHydrate, listAppConfigurationDiagnosticSettings, GetNewSession.
    rewrite Hid. simpl. rewrite Hs. reflexivity.
  - intros s err Hs ->. eexists. split.
    + unfold callHydrate, listAppConfigurationDiagnosticSettings,
        GetNewSession.
      rewrite Hid. simpl. rewrite Hs. simpl. reflexivity.
    + rewrite !history_logged, <- !app_assoc. reflexivity.
  - intros s Hs ->. eexists. split.
    + unfold callHydrate, listAppConfigurationDiagnosticSettings,
        GetNewSession.
      rewrite Hid. simpl. rewrite Hs. simpl. reflexivity.
    + rewrite !history_logged, <- !app_assoc. reflexivity.
Qed.

Lemma nonEmpty_true s : nonEmpty s = true ↔ s ≠ "".
Proof.
  unfold nonEmpty. rewrite negb_true_iff, bool_decide_eq_false. reflexivity.
Qed.

Lemma nonEmpty_false s : nonEmpty s = false ↔ s = "".
Proof.
  unfold nonEmpty. rewrite negb_false_iff, bool_decide_eq_true. reflexivity.
Qed.

(** X23. On a configuration store whose properties are present,
    [getPublicNetworkAccess] returns a string with a nil error and touches
    nothing else. The string is never empty: it is the store's
    [PublicNetworkAccess] when that is set; otherwise it is "Enabled" when
    the store has no private endpoint connection list and "Disabled" when
    it has one - also when that list is empty. *)
Lemma public_network_access_never_empty store props w :
  csProperties store = Some props →
  ∃ s,
    callHydrate (getPublicNetworkAccess store) w
    = (HReturned (HydrateReturn (Some (HEnum s)) None), w) ∧
    s ≠ "" ∧
    (PublicNetworkAccess props ≠ "" → s = PublicNetworkAccess props) ∧
    (PublicNetworkAccess props = "" →
       PrivateEndpointConnections props = None → s = "Enabled") ∧
    (PublicNetworkAccess props = "" →
       ∀ connections, PrivateEndpointConnections props = Some connections →
       s = "Disabled").
Proof.
  intros Hp. unfold callHydrate, getPublicNetworkAccess. rewrite Hp.
  cbv [deref bind ret returnH].
  destruct (nonEmpty (PublicNetworkAccess props)) eqn:Hne.
  - apply nonEmpty_true in Hne. simpl.
    eexists. split; [reflexivity|]. repeat split; try assumption.
    + intros He. contradiction.
    + intros He. contradiction.
  - apply nonEmpty_false in Hne. simpl.
    destruct (PrivateEndpointConnections props) as [cs|]; simpl;
      (eexists; split; [reflexivity|]); repeat split;
      try discriminate; try reflexivity;
      try (intros Hc; contradiction).
Qed.






Ltac run_security Hs :=
  unfold callHydrate, runSecurityHydrate, getProvisioningDetails,
    getContactDetails, getPolicyDetails, getSettingDetails,
    getPricingsDetails, GetNewSession, security_List, client_Get;
  simpl; rewrite Hs; simpl.

Lemma history_fetched w : history (fetched w) = history w.
Proof. reflexivity. Qed.

(** X25. With a session, every hydrate of the security center table
    ([getProvisioningDetails], [getContactDetails], [getPolicyDetails],
    [getSettingDetails], [getPricingsDetails]) returns, and all it has
    done is to request the session and to make one API call, on a client
    to which no retry rules were applied. In particular a list result
    that reports further pages is never advanced: only its first page is
    read. No row is streamed. *)
Lemma security_hydrate_single_call_without_retry h env resp s w :
  session env = inr s →
  ∃ r op args w',
    callHydrate (runSecurityHydrate h env resp) w = (HReturned r, w') ∧
    history w' = history w ++ [EvGetNewSession; EvCall op false args] ∧
    rows w' = rows w.
Proof.
  intros Hs.
  destruct h, resp as [e|p], (getResp env) as [e'|p'] eqn:Hg;
    run_security Hs; rewrite ?Hg; simpl;
    (do 4 eexists; split; [reflexivity|]; split; [|reflexivity]);
    rewrite ?history_fetched, !history_logged, <- !app_assoc; reflexivity.
Qed.

(** X26. The two kinds of failure of a security center hydrate come back
    differently. A session failure is returned as the error, with a nil
    item, and no call is made. An error the provider answers the call
    with is returned as the item, with a nil error. *)
Lemma security_hydrate_failures h env resp w :
  (∀ err, session env = inl err →
     callHydrate (runSecurityHydrate h env resp) w
     = (HReturned (HydrateReturn None (Some err)),
        logged EvGetNewSession w)) ∧
  (∀ s err, session env = inr s → providerError h env resp = Some err →
     fst (callHydrate (runSecurityHydrate h env resp) w)
     = HReturned (HydrateReturn (Some (HError err)) None)).
Proof.
  split.
  - intros err Hs. destruct h; run_security Hs; reflexivity.
  - intros s err Hs He.
    destruct h, resp as [e|p], (getResp env) as [e'|p'] eqn:Hg;
      simpl in He; rewrite ?Hg in He; try discriminate He;
      injection He as ->; run_security Hs; rewrite ?Hg; reflexivity.
Qed.

(** X27. With a session, [getProvisioningDetails], [getContactDetails],
    [getSettingDetails] and [getPricingsDetails] turn the first page of
    the list result into one map per element, in order, with a nil error,
    whether or not the page reports further pages. Every map has exactly
    four entries, and they hold the fields as they are, nil or not: [id],
    [name], [type], and [kind] for a setting, [properties] for the
    others. *)
Lemma security_hydrate_maps_keep_nil_fields h env page s w :
  session env = inr s →
  buildsMaps h = true →
  ∃ ms,
    fst (callHydrate (runSecurityHydrate h env (inr page)) w)
    = HReturned (HydrateReturn (Some (HMaps ms)) None) ∧
    length ms = length (spValues page) ∧
    ∀ i v, spValues page !! i = Some v →
      ∃ m, ms !! i = Some m ∧
        m !! "id" = Some (FStringPtr (siID v)) ∧
        m !! "name" = Some (FStringPtr (siName v)) ∧
        m !! "type" = Some (FStringPtr (siType v)) ∧
        match h with
        | SettingDetails => m !! "kind" = Some (FEnum (siKind v))
        | _ => m !! "properties" = Some (FObjectPtr (siProperties v))
        end ∧
        size m = 4.
Proof.
  intros Hs Hb.
  destruct h; try discriminate Hb;
    (eexists (rangeAppend (spValues page) _ []); split;
     [run_security Hs; reflexivity|]; split; [apply rangeAppend_length|];
     intros i v Hv; eexists; split; [apply rangeAppend_lookup; exact Hv|];
     repeat split; try reflexivity).
Qed.

Lemma diagnostic_settings_nil_ID_panics_first_witness :
  callHydrate
    (listAppConfigurationDiagnosticSettings twoPages
       (inr (Some [sampleSetting])) storeWithoutID)
    (initWorld ∅ 0)
  = (HStopped (Panicked NilDereference), initWorld ∅ 0).
Proof.
  apply diagnostic_settings_nil_ID_panics_first. reflexivity.
Defined.

Lemma diagnostic_settings_hold_the_set_fields_witness :
  ∃ ms w',
    callHydrate
      (listAppConfigurationDiagnosticSettings twoPages
         (inr (Some [sampleSetting])) sampleStore)
      (initWorld ∅ 0)
    = (HReturned (HydrateReturn (Some (HMaps ms)) None), w') ∧
    history w' = history (initWorld ∅ 0)
                 ++ [EvGetNewSession; EvApplyRetryRules;
                     EvCall OpList true [sampleStoreID]] ∧
    rows w' = rows (initWorld ∅ 0) ∧
    length ms = length [sampleSetting] ∧
    ∀ i v, [sampleSetting] !! i = Some v →
      ∃ m, ms !! i = Some m ∧
        m !! "id" = (FStringPtr ∘ Some) <$> dsID v ∧
        m !! "name" = (FStringPtr ∘ Some) <$> dsName v ∧
        m !! "type" = (FStringPtr ∘ Some) <$> dsType v ∧
        m !! "properties" = (FObjectPtr ∘ Some) <$> dsDiagnosticSettings v ∧
        ∀ k, k ∉ ["id"; "name"; "type"; "properties"] → m !! k = None.
Proof.
  apply (diagnostic_settings_hold_the_set_fields twoPages sampleStore
           sampleStoreID [sampleSetting] {| SubscriptionID := "sub" |});
    reflexivity.
Defined.

Lemma diagnostic_settings_failures_witness :
  ∃ w',
    callHydrate
      (listAppConfigurationDiagnosticSettings twoPages (inr None)
         sampleStore)
      (initWorld ∅ 0)
    = (HStopped (Panicked NilDereference), w') ∧
    history w' = history (initWorld ∅ 0)
                 ++ [EvGetNewSession; EvApplyRetryRules;
                     EvCall OpList true [sampleStoreID]].
Proof.
  destruct (diagnostic_settings_failures twoPages (inr None) sampleStore
              sampleStoreID (initWorld ∅ 0) eq_refl) as (_ & _ & Hnil).
  apply (Hnil {| SubscriptionID := "sub" |}); reflexivity.
Defined.

Lemma public_network_access_never_empty_witness :
  ∃ s,
    callHydrate (getPublicNetworkAccess sampleStore) (initWorld ∅ 0)
    = (HReturned (HydrateReturn (Some (HEnum s)) None), initWorld ∅ 0) ∧
    s ≠ "" ∧
    (PublicNetworkAccess sampleProperties ≠ "" →
       s = PublicNetworkAccess sampleProperties) ∧
    (PublicNetworkAccess sampleProperties = "" →
       PrivateEndpointConnections sampleProperties = None →
       s = "Enabled") ∧
    (PublicNetworkAccess sampleProperties = "" →
       ∀ connections,
         PrivateEndpointConnections sampleProperties = Some connections →
         s = "Disabled").
Proof.
  apply (public_network_access_never_empty sampleStore sampleProperties).
  reflexivity.
Defined.


Lemma security_hydrate_single_call_without_retry_witness :
  ∃ r op args w',
    callHydrate
      (runSecurityHydrate SettingDetails twoPages (inr firstOfMany))
      (initWorld ∅ 0)
    = (HReturned r, w') ∧
    history w' = history (initWorld ∅ 0)
                 ++ [EvGetNewSession; EvCall op false args] ∧
    rows w' = rows (initWorld ∅ 0).
Proof.
  apply (security_hydrate_single_call_without_retry SettingDetails twoPages
           (inr firstOfMany) {| SubscriptionID := "sub" |}).
  reflexivity.
Defined.

Lemma security_hydrate_failures_witness :
  fst (callHydrate
         (runSecurityHydrate PolicyDetails accessDenied (inr firstOfMany))
         (initWorld ∅ 0))
  = HReturned (HydrateReturn (Some (HError (Err "AuthorizationFailed")))
                 None).
Proof.
  destruct (security_hydrate_failures PolicyDetails accessDenied
              (inr firstOfMany) (initWorld ∅ 0)) as (_ & Hprovider).
  apply (Hprovider {| SubscriptionID := "sub" |}); reflexivity.
Defined.

Lemma security_hydrate_maps_keep_nil_fields_witness :
  ∃ ms,
    fst (callHydrate
           (runSecurityHydrate SettingDetails twoPages (inr firstOfMany))
           (initWorld ∅ 0))
    = HReturned (HydrateReturn (Some (HMaps ms)) None) ∧
    length ms = length (spValues firstOfMany) ∧
    ∀ i v, spValues firstOfMany !! i = Some v →
      ∃ m, ms !! i = Some m ∧
        m !! "id" = Some (FStringPtr (siID v)) ∧
        m !! "name" = Some (FStringPtr (siName v)) ∧
        m !! "type" = Some (FStringPtr (siType v)) ∧
        m !! "kind" = Some (FEnum (siKind v)) ∧
        size m = 4.
Proof.
  apply (security_hydrate_maps_keep_nil_fields SettingDetails twoPages
           firstOfMany {| SubscriptionID := "sub" |}); reflexivity.
Defined.
